(** * The IndexTTS worker (src/tts_server.py): request loop, synthesis
      adapter, warm-up and temporary workspace

    A shallow embedding of [IndexTtsServer.process_text],
    [IndexTtsServer.warm_up_models] and [IndexTtsServer.run], together with
    the operating-system and socket primitives they call, and the properties
    of the request/response lifecycle that follow from the code.

    The Python code is effectful: it reads and writes the file system, sends
    on a socket, prints, raises and catches exceptions, and keeps the local
    variable [message] across iterations of [while True].  The embedding
    threads all of this explicitly through one small monad: a computation
    takes a [State] (file system and the binding of [message]) and returns
    the events it produced, the state it left, and either a value or the
    exception that escaped.

    What the program cannot decide itself is supplied per call by an oracle:
    what [recv_multipart] delivers, which name [mkdtemp] or
    [NamedTemporaryFile] picks, and what the model does when [infer_fast] is
    called.  The other primitives are functions of the file system.

    Taken for granted: [print] and [send_multipart] do not raise; the
    [torch.inference_mode] and [torch.amp.autocast] contexts and
    [time.perf_counter] have no effect the server can see; every exception
    is an [Exception] (no [KeyboardInterrupt]); the model touches no path
    but its output path.  The loop itself never ends; [run] is its
    behaviour along a finite list of moves of the environment.

    The start of the process ([IndexTtsServer.__init__] and [main]) is
    embedded after the server, as [init] and [process], with the UTF-8
    encoding that is the inverse of the decoding of the payload. *)

From Stdlib Require Import Strings.Byte NArith String List.
From stdpp Require Import base option list strings gmap fin_maps.

Local Open Scope string_scope.

(* ===================================================================== *)
(** ** Data *)
(* ===================================================================== *)

(** Python [bytes]. *)
Abbreviation bytes := (list byte).

(** Python [str] holding text: the sequence of its code points. *)
Abbreviation str := (list N).

(** A path in normal form: the components below the root, so that
    [os.path.join d "response.wav"] is [d ++ ["response.wav"]] and
    [os.path.dirname p] is [removelast p].  The root is [[]]. *)
Abbreviation path := (list string).

Definition join (d : path) (name : string) : path := d ++ [name].
Definition dirname (p : path) : path := removelast p.

(** The exceptions that occur.  All of them are subclasses of Python's
    [Exception], so an [except Exception] clause catches every one. *)
Inductive exn :=
| IndexError                      (* list index out of range *)
| UnboundLocalError               (* local variable read before assignment *)
| UnicodeDecodeError              (* bytes.decode('utf-8') on malformed input *)
| FileNotFoundError (p : path)
| FileExistsError (p : path)
| NotADirectoryError (p : path)
| IsADirectoryError (p : path)
| DirectoryNotEmpty (p : path)    (* OSError ENOTEMPTY from rmdir *)
| OSError (msg : string)          (* any other failure of an OS call *)
| ZMQError (msg : string)         (* failure of a socket call *)
| ModelError (msg : string).      (* raised by the model *)

(** [str(e)], as far as the code's messages depend on it. *)
Definition exn_str (e : exn) : string :=
  match e with
  | IndexError => "list index out of range"
  | UnboundLocalError =>
      "cannot access local variable 'message' where it is not associated with a value"
  | UnicodeDecodeError => "'utf-8' codec can't decode bytes"
  | FileNotFoundError _ => "[Errno 2] No such file or directory"
  | FileExistsError _ => "[Errno 17] File exists"
  | NotADirectoryError _ => "[Errno 20] Not a directory"
  | IsADirectoryError _ => "[Errno 21] Is a directory"
  | DirectoryNotEmpty _ => "[Errno 39] Directory not empty"
  | OSError m => m
  | ZMQError m => m
  | ModelError m => m
  end.

(** *** The file system *)

Inductive node := File (content : bytes) | Dir.

Abbreviation FS := (gmap path node).

(** [os.path.exists]; the root always exists. *)
Definition path_exists (fs : FS) (p : path) : bool :=
  match p with
  | [] => true
  | _ => match fs !! p with Some _ => true | None => false end
  end.

(** [os.path.isdir]. *)
Definition is_dir (fs : FS) (p : path) : bool :=
  match p with
  | [] => true
  | _ => match fs !! p with Some Dir => true | _ => false end
  end.

(** The bytes of the regular file at [p], if there is one. *)
Definition file_content (fs : FS) (p : path) : option bytes :=
  match fs !! p with Some (File b) => Some b | _ => None end.

(** [k] lies directly inside directory [d]. *)
Definition child_of (d : path) (k : path) : Prop := k ≠ [] ∧ dirname k = d.

#[global] Instance child_of_dec d k : Decision (child_of d k).
Proof. unfold child_of. apply _. Defined.

(** A directory is empty when no entry of the file system lies directly
    inside it. *)
Definition dir_empty (fs : FS) (d : path) : bool :=
  bool_decide (map_Forall (λ k _, ¬ child_of d k) fs).

(** Every entry lies inside a directory that exists. *)
Definition fs_wf (fs : FS) : Prop :=
  map_Forall (λ k _, k ≠ [] ∧ is_dir fs (dirname k) = true) fs.

#[global] Instance fs_wf_dec (f : FS) : Decision (fs_wf f).
Proof. unfold fs_wf. apply _. Defined.

(** *** Events *)

(** The places where the code prints. *)
Inductive LogLine :=
| LogReady                               (* "IndexTTS server is ready to receive a message ..." *)
| LogStatus (status_msg : string)        (* "Status:" status_msg *)
| LogCleanupWarning (e : exn)            (* "Warning: Failed to clean up temp files: ..." *)
| LogRequestError (e : exn)              (* "Error processing request: ..." *)
| LogSynthesisInput (text : str) (output_file : path)
| LogUsingVoice (voice_file : path)      (* "Using voice file:" *)
| LogUsingDefaultVoice (voice_file : path) (* "Using default voice file:" *)
| LogInferenceCompleted                  (* "IndexTTS inference completed in ..." *)
| LogAudioNotCreated                     (* "Audio file was not created!" *)
| LogAudioCreated (file_size : nat)      (* "Audio file created successfully. Size: ..." *)
| LogSynthesisException (e : exn)        (* "Exception during IndexTTS processing: ..." *)
| LogWarmupStart                         (* "Warming up IndexTTS model..." *)
| LogWarmupDone                          (* "IndexTTS model warmed up successfully!" *)
| LogWarmupSkipped                       (* "Skipping warmup - no default voice file available" *)
| LogWarmupFailed (e : exn).             (* "Warning: Failed to warm up models: ..." *)

(** What the process does to the outside world. *)
Inductive Event :=
| ESend (frames : list bytes)            (* socket.send_multipart(frames) *)
| EInfer (audio_prompt : path) (text : str) (output_path : path)
                                         (* tts.infer_fast(audio_prompt=, text=, output_path=) *)
| EPrint (l : LogLine).

(** *** State *)

(** The file system, and the local variable [message] of [run]: [None]
    while it is unbound, the last received envelope afterwards. *)
Record State := mkState {
  disk : FS;
  message : option (list bytes)
}.

Definition set_disk (f : FS) (st : State) : State := mkState f (message st).
Definition set_message (m : list bytes) (st : State) : State := mkState (disk st) (Some m).

(* ===================================================================== *)
(** ** The monad of the embedding: state, exceptions and an event log *)
(* ===================================================================== *)

(** What a computation leaves behind: the events in the order they
    happened, the state, and the value returned ([inr]) or the exception
    that escaped ([inl]). *)
Record Out (A : Type) := mkOut {
  events : list Event;
  final : State;
  result : exn + A
}.
Arguments mkOut {A} _ _ _.
Arguments events {A} _.
Arguments final {A} _.
Arguments result {A} _.

Definition M (A : Type) : Type := State → Out A.

Definition ret {A} (x : A) : M A := λ st, mkOut [] st (inr x).

Definition raise {A} (e : exn) : M A := λ st, mkOut [] st (inl e).

Definition bind {A B} (m : M A) (k : A → M B) : M B := λ st,
  match m st with
  | mkOut evs st1 (inl e) => mkOut evs st1 (inl e)
  | mkOut evs st1 (inr a) =>
      match k a st1 with
      | mkOut evs' st2 r => mkOut (evs ++ evs') st2 r
      end
  end.

(** [try: m  except Exception as e: h e]. *)
Definition try_except {A} (m : M A) (h : exn → M A) : M A := λ st,
  match m st with
  | mkOut evs st1 (inl e) =>
      match h e st1 with
      | mkOut evs' st2 r => mkOut (evs ++ evs') st2 r
      end
  | mkOut evs st1 (inr a) => mkOut evs st1 (inr a)
  end.

(** [with cm: m], for a context manager whose [__exit__] is [close] and
    does not suppress exceptions: [close] runs on both exits. *)
Definition with_closing {A} (m : M A) (close : M unit) : M A := λ st,
  match m st with
  | mkOut evs st1 r =>
      match close st1 with
      | mkOut evs' st2 (inl e) => mkOut (evs ++ evs') st2 (inl e)
      | mkOut evs' st2 (inr _) => mkOut (evs ++ evs') st2 r
      end
  end.

Definition emit (ev : Event) : M unit := λ st, mkOut [ev] st (inr tt).
Definition print (l : LogLine) : M unit := emit (EPrint l).

Declare Scope m_scope.
Delimit Scope m_scope with M.
Bind Scope m_scope with M.
Notation "x ← m ; k" := (bind m (λ x, k))
  (at level 20, m at level 100, k at level 200, only parsing) : m_scope.
Notation "m ;; k" := (bind m (λ _, k))
  (at level 100, k at level 200, only parsing, right associativity) : m_scope.

(** Reading and replacing the file system inside a computation. *)
Definition get_disk : M FS := λ st, mkOut [] st (inr (disk st)).
Definition put_disk (f : FS) : M unit := λ st, mkOut [] (set_disk f st) (inr tt).

(* ===================================================================== *)
(** ** The primitives the server calls *)
(* ===================================================================== *)

(** *** Operating system *)

(** [os.path.exists(p)]. *)
Definition os_path_exists (p : path) : M bool :=
  (f ← get_disk; ret (path_exists f p))%M.

(** [os.path.getsize(p)], called by the code only on a path that exists. *)
Definition os_path_getsize (p : path) : M nat :=
  (f ← get_disk;
   ret (match file_content f p with Some b => length b | None => 0 end))%M.

(** [os.makedirs(name, exist_ok=True)], on the reversed path: the parent
    is created first when it does not exist, then [mkdir name]; that the
    directory is already there is not an error. *)
Fixpoint makedirs_rev (rname : list string) (f : FS) : exn + FS :=
  match rname with
  | [] => inr f
  | _ :: rhead =>
      let name := rev rname in
      let head := rev rhead in
      match (if path_exists f head then inr f else makedirs_rev rhead f) with
      | inl e => inl e
      | inr f1 =>
          match f1 !! name with
          | Some Dir => inr f1
          | Some (File _) => inl (FileExistsError name)
          | None => if is_dir f1 head then inr (<[name := Dir]> f1)
                    else inl (NotADirectoryError name)
          end
      end
  end.

Definition os_makedirs (name : path) : M unit :=
  (f ← get_disk;
   match makedirs_rev (rev name) f with
   | inl e => raise e
   | inr f1 => put_disk f1
   end)%M.

(** [open(p, 'wb').write(b)]: creates or truncates the regular file [p]
    inside an existing directory. *)
Definition write_file (p : path) (b : bytes) : M unit :=
  (f ← get_disk;
   if is_dir f p then raise (IsADirectoryError p)
   else if negb (is_dir f (dirname p)) then raise (FileNotFoundError p)
   else put_disk (<[p := File b]> f))%M.

(** [open(p, 'rb').read()]. *)
Definition read_file (p : path) : M bytes :=
  (f ← get_disk;
   if is_dir f p then raise (IsADirectoryError p)
   else match file_content f p with
        | Some b => ret b
        | None => raise (FileNotFoundError p)
        end)%M.

(** [os.remove(p)]: deletes a regular file, raises when there is none. *)
Definition os_remove (p : path) : M unit :=
  (f ← get_disk;
   if is_dir f p then raise (IsADirectoryError p)
   else match file_content f p with
        | Some _ => put_disk (delete p f)
        | None => raise (FileNotFoundError p)
        end)%M.

(** [os.rmdir(d)]: deletes an empty directory. *)
Definition os_rmdir (d : path) : M unit :=
  (f ← get_disk;
   match d with
   | [] => raise (OSError "[Errno 16] Device or resource busy")
   | _ =>
     match f !! d with
     | None => raise (FileNotFoundError d)
     | Some (File _) => raise (NotADirectoryError d)
     | Some Dir => if dir_empty f d then put_disk (delete d f)
                   else raise (DirectoryNotEmpty d)
     end
   end)%M.

(** [tempfile.mkdtemp()]: the allocator either fails or picks a name; the
    directory is created only under a name that is free, inside a
    directory that exists. *)
Definition mkdtemp (pick : exn + path) : M path :=
  match pick with
  | inl e => raise e
  | inr d =>
    (f ← get_disk;
     if path_exists f d then raise (FileExistsError d)
     else if negb (is_dir f (dirname d)) then raise (FileNotFoundError d)
     else (put_disk (<[d := Dir]> f);; ret d))%M
  end.

(** [tempfile.NamedTemporaryFile(suffix='.wav', delete=True).__enter__()]:
    as [mkdtemp], but an empty regular file is created. *)
Definition NamedTemporaryFile (pick : exn + path) : M path :=
  match pick with
  | inl e => raise e
  | inr p =>
    (f ← get_disk;
     if path_exists f p then raise (FileExistsError p)
     else if negb (is_dir f (dirname p)) then raise (FileNotFoundError p)
     else (put_disk (<[p := File []]> f);; ret p))%M
  end.

(** [__exit__] of the temporary file: it is closed and unlinked. *)
Definition close_temporary_file (p : path) : M unit := os_remove p.

(** *** Socket *)

(** [socket.recv_multipart()]: blocks, then raises or delivers an
    envelope; which one is the oracle's. *)
Definition recv_multipart (delivery : exn + list bytes) : M (list bytes) :=
  match delivery with
  | inl e => raise e
  | inr frames => ret frames
  end.

(** [socket.send_multipart(frames)]. *)
Definition send_multipart (frames : list bytes) : M unit := emit (ESend frames).

(** *** Python values *)

(** [l[i]]: [IndexError] outside the list. *)
Definition index {A} (l : list A) (i : nat) : M A :=
  match l !! i with
  | Some x => ret x
  | None => raise IndexError
  end.

(** [message = v] in [run]. *)
Definition assign_message (v : list bytes) : M unit :=
  λ st, mkOut [] (set_message v st) (inr tt).

(** Reading the local variable [message]: [UnboundLocalError] while no
    assignment to it has been executed. *)
Definition read_message : M (list bytes) := λ st,
  match message st with
  | Some v => mkOut [] st (inr v)
  | None => mkOut [] st (inl UnboundLocalError)
  end.

(** [payload.decode('utf-8')] with the default strict error handling:
    well-formed UTF-8 only, so no overlong forms, no surrogates and nothing
    above U+10FFFF. *)
Definition is_cont (b : byte) : bool :=
  ((128 <=? Byte.to_N b) && (Byte.to_N b <=? 191))%N.

Definition cont_bits (b : byte) : N := (Byte.to_N b - 128)%N.

Fixpoint utf8_decode (bs : bytes) : option str :=
  match bs with
  | [] => Some []
  | b0 :: r0 =>
    let n0 := Byte.to_N b0 in
    if (n0 <? 128)%N then cons n0 <$> utf8_decode r0
    else if ((194 <=? n0) && (n0 <=? 223))%N then
      match r0 with
      | b1 :: r1 =>
          if is_cont b1
          then cons ((n0 - 192) * 64 + cont_bits b1)%N <$> utf8_decode r1
          else None
      | _ => None
      end
    else if ((224 <=? n0) && (n0 <=? 239))%N then
      match r0 with
      | b1 :: b2 :: r2 =>
          let cp := ((n0 - 224) * 4096 + cont_bits b1 * 64 + cont_bits b2)%N in
          if is_cont b1 && is_cont b2 && (2048 <=? cp)%N
             && negb ((55296 <=? cp) && (cp <=? 57343))%N
          then cons cp <$> utf8_decode r2
          else None
      | _ => None
      end
    else if ((240 <=? n0) && (n0 <=? 244))%N then
      match r0 with
      | b1 :: b2 :: b3 :: r3 =>
          let cp := ((n0 - 240) * 262144 + cont_bits b1 * 4096
                     + cont_bits b2 * 64 + cont_bits b3)%N in
          if is_cont b1 && is_cont b2 && is_cont b3
             && (65536 <=? cp)%N && (cp <=? 1114111)%N
          then cons cp <$> utf8_decode r3
          else None
      | _ => None
      end
    else None
  end.

Definition decode_utf8 (payload : bytes) : M str :=
  match utf8_decode payload with
  | Some text => ret text
  | None => raise UnicodeDecodeError
  end.

(** *** The model *)

(** What one call of [tts.infer_fast] does, as far as the server can see
    it: it may write the output file, and it may raise.  It can do both
    (a file is left behind and the call fails), or neither (it returns
    without having produced anything). *)
Record InferOutcome := mkInfer {
  io_write : option bytes;
  io_raise : option string
}.

(** [self.tts.infer_fast(audio_prompt=, text=, output_path=, ...)].  The
    remaining keyword arguments are constants of the call. *)
Definition infer_fast (io : InferOutcome)
    (audio_prompt : path) (text : str) (output_path : path) : M unit :=
  (emit (EInfer audio_prompt text output_path);;
   match io_write io with
   | Some b => write_file output_path b
   | None => ret tt
   end;;
   match io_raise io with
   | Some msg => raise (ModelError msg)
   | None => ret tt
   end)%M.

(** What the environment does during one iteration of [run]. *)
Record Env := mkEnv {
  delivery : exn + list bytes;       (* recv_multipart *)
  tempdir_pick : exn + path;         (* mkdtemp *)
  inference : InferOutcome           (* infer_fast *)
}.

(** What the environment does during the warm-up. *)
Record WarmEnv := mkWarmEnv {
  tempfile_pick : exn + path;        (* NamedTemporaryFile *)
  warm_inference : InferOutcome      (* infer_fast *)
}.

(* ===================================================================== *)
(** ** The server *)
(* ===================================================================== *)

Definition service_name : string := "text-to-wav".

(** The three status strings of [process_text]. *)
Definition status_success : string := "Text processed successfully!".
Definition status_no_audio : string := "Error: IndexTTS failed to generate audio.".
Definition status_exception (e : exn) : string :=
  "Error in text processing: " ++ exn_str e.

(** [dummy_text] of the warm-up: the two characters U+6D4B U+8BD5. *)
Definition dummy_text : str := [27979%N; 35797%N].

Section Server.

(** [self.default_voice]. *)
Variable default_voice : path.

(** [IndexTtsServer.process_text(text_data, output_file, voice_file=None)].
    [voice_file] is [None] for Python's [None] (and for the empty string,
    which [if voice_file:] treats alike). *)
Definition process_text (io : InferOutcome)
    (text_data : str) (output_file : path) (voice_file : option path) : M string :=
  (print (LogSynthesisInput text_data output_file);;
   voice_file ← match voice_file with
                | Some v => print (LogUsingVoice v);; ret v
                | None => print (LogUsingDefaultVoice default_voice);;
                          ret default_voice
                end;
   try_except
     (os_makedirs (dirname output_file);;
      infer_fast io voice_file text_data output_file;;
      print LogInferenceCompleted;;
      created ← os_path_exists output_file;
      if negb created then
        print LogAudioNotCreated;;
        ret status_no_audio
      else
        file_size ← os_path_getsize output_file;
        print (LogAudioCreated file_size);;
        ret status_success)
     (λ e, print (LogSynthesisException e);;
           ret (status_exception e)))%M.

(** [IndexTtsServer.warm_up_models()]. *)
Definition warm_up_models (w : WarmEnv) : M unit :=
  (print LogWarmupStart;;
   temp_file ← NamedTemporaryFile (tempfile_pick w);
   with_closing
     (try_except
        (available ← os_path_exists default_voice;
         if available then
           process_text (warm_inference w) dummy_text temp_file (Some default_voice);;
           print LogWarmupDone
         else
           print LogWarmupSkipped)
        (λ e, print (LogWarmupFailed e)))
     (close_temporary_file temp_file))%M.

(** The inner [try] of [run], after the reply: both removals share one
    [try], and whatever it raises is printed as a warning. *)
Definition cleanup (temp_audio_path temp_dir : path) : M unit :=
  try_except
    (os_remove temp_audio_path;;
     os_rmdir temp_dir)%M
    (λ e, print (LogCleanupWarning e)).

(** The body of the outer [try] in [run]. *)
Definition run_try (e : Env) : M unit :=
  (print LogReady;;
   msg ← recv_multipart (delivery e);
   assign_message msg;;
   payload ← index msg 3;
   temp_dir ← mkdtemp (tempdir_pick e);
   let temp_audio_path := join temp_dir "response.wav" in
   text ← decode_utf8 payload;
   status_msg ← process_text (inference e) text temp_audio_path None;
   print (LogStatus status_msg);;
   created ← os_path_exists temp_audio_path;
   audio_data ← (if created then read_file temp_audio_path else ret []);
   send_multipart (take 3 msg ++ [audio_data]);;
   cleanup temp_audio_path temp_dir)%M.

(** The [except Exception as e] clause of [run]. *)
Definition run_except (e : exn) : M unit :=
  (print (LogRequestError e);;
   msg ← read_message;
   send_multipart (take 3 msg ++ [[]]))%M.

(** One iteration of [while True] in [run]. *)
Definition run_iteration (e : Env) : M unit :=
  try_except (run_try e) run_except.

(** [IndexTtsServer.run()], along the environment's first [length envs]
    moves: the loop has no exit of its own, it ends only when an exception
    escapes an iteration. *)
Fixpoint run (envs : list Env) : M unit :=
  match envs with
  | [] => ret tt
  | e :: envs' => (run_iteration e;; run envs')%M
  end.

(** The end of [IndexTtsServer.__init__] (registration with the broker,
    then the warm-up), followed by [run], as [main] calls them.  The model
    handle and the connection are taken to be set up. *)
Definition init_tail (w : WarmEnv) : M unit :=
  (send_multipart [String.list_byte_of_string service_name];;
   warm_up_models w)%M.

Definition main (w : WarmEnv) (envs : list Env) : M unit :=
  (init_tail w;; run envs)%M.

End Server.

(** The state in which [run] is entered: [message] is not bound yet. *)
Definition initial_state (f : FS) : State := mkState f None.

(** The replies and the model calls among the events. *)
Definition sends (evs : list Event) : list (list bytes) :=
  omap (λ ev, match ev with ESend frames => Some frames | _ => None end) evs.

Definition infer_calls (evs : list Event) : list (path * str * path) :=
  omap (λ ev, match ev with EInfer v t o => Some (v, t, o) | _ => None end) evs.

(** How many times the warm-up was started. *)
Definition warmup_starts (evs : list Event) : nat :=
  length (omap (λ ev, match ev with
                      | EPrint LogWarmupStart => Some tt
                      | _ => None
                      end) evs).

(** What [run] puts in the payload frame once the synthesis call is over:
    the bytes of the file at the artifact path, or the empty sentinel. *)
Definition artifact_or_sentinel (f : FS) (p : path) : bytes :=
  default [] (file_content f p).

(** The envelope in the spec's words: the last frame is the payload, the
    frames before it are the routing frames. *)
Definition spec_routing_frames (msg : list bytes) : list bytes := removelast msg.
Definition spec_payload_frame (msg : list bytes) : option bytes := last msg.

(* ===================================================================== *)
(** ** Concrete inputs *)
(* ===================================================================== *)

Module Fixture.

(** A file system with [/tmp] and nothing else: the default voice file
    [/app/coXTTS.wav] is missing. *)
Definition voice : path := ["app"; "coXTTS.wav"].
Definition disk_no_voice : FS := {[ ["tmp"] := Dir ]}.

(** The same with [/app/coXTTS.wav] in place. *)
Definition disk_voice : FS :=
  <[ voice := File [x52; x49; x46; x46] ]> (<[ ["app"] := Dir ]> disk_no_voice).

Definition tempdir : path := ["tmp"; "tmpk3v9"].
Definition artifact : path := join tempdir "response.wav".
Definition tempfile : path := ["tmp"; "tmpq7w1.wav"].

(** Three routing frames as a broker prepends them, and the text "ok". *)
Definition routing : list bytes := [[x00; x80; x00; x41]; []; [x63; x31]].
Definition ok : bytes := [x6f; x6b].
Definition audio : bytes := [x52; x49; x46; x46; x24; x00].

Definition request : list bytes := routing ++ [ok].
Definition request_bad_utf8 : list bytes := routing ++ [[xff]].
Definition request_five : list bytes := routing ++ [ok; [x7a; x7a]].
Definition request_three : list bytes := routing.

(** The model writes [audio] and returns; returns without writing;
    raises without writing. *)
Definition model_ok : InferOutcome := mkInfer (Some audio) None.
Definition model_silent : InferOutcome := mkInfer None None.
Definition model_raises : InferOutcome := mkInfer None (Some "prompt audio not found").

Definition env (msg : list bytes) (io : InferOutcome) : Env :=
  mkEnv (inr msg) (inr tempdir) io.

Definition warm_env (io : InferOutcome) : WarmEnv := mkWarmEnv (inr tempfile) io.

(** One request served with everything in place. *)
Definition served : Out unit :=
  run_iteration voice (env request model_ok) (initial_state disk_voice).

End Fixture.

(* ===================================================================== *)
(** ** Text on the wire *)
(* ===================================================================== *)

(** The byte with value [n], for [n] below 256. *)
Definition byte_of_N (n : N) : byte := default x00 (Byte.of_N n).

(** A code point that is a Unicode scalar value: not a surrogate, and at
    most U+10FFFF. *)
Definition is_scalar (c : N) : bool :=
  ((c <? 55296) || ((57343 <? c) && (c <? 1114112)))%N.

(** The UTF-8 form of one scalar value. *)
Definition utf8_encode_char (c : N) : bytes :=
  if (c <? 128)%N then [byte_of_N c]
  else if (c <? 2048)%N then
    [byte_of_N (192 + c / 64); byte_of_N (128 + c mod 64)]
  else if (c <? 65536)%N then
    [byte_of_N (224 + c / 4096); byte_of_N (128 + (c / 64) mod 64);
     byte_of_N (128 + c mod 64)]
  else
    [byte_of_N (240 + c / 262144); byte_of_N (128 + (c / 4096) mod 64);
     byte_of_N (128 + (c / 64) mod 64); byte_of_N (128 + c mod 64)].

(** [text.encode('utf-8')], as a client does it before sending, and as
    [__init__] does it with the service name: [None] stands for the
    [UnicodeEncodeError] that a lone surrogate raises. *)
Definition utf8_encode (text : str) : option bytes :=
  if forallb is_scalar text then Some (flat_map utf8_encode_char text) else None.

(* ===================================================================== *)
(** ** Start of the process: [IndexTtsServer.__init__] and [main] *)
(* ===================================================================== *)

(** The four variables [__init__] reads with [os.environ.get]: [None]
    when a variable is not set.  Paths are in normal form. *)
Record Environ := mkEnviron {
  env_DEVICE : option string;
  env_INDEX_TTS_MODEL_DIR : option path;
  env_INDEX_TTS_DEFAULT_VOICE : option path;
  env_ZMQ_BACKEND_ROUTER_URL : option string
}.

(** [os.environ.get(key, default)]. *)
Definition environ_get {A} (value : option A) (dflt : A) : A := default dflt value.

(** What the rest of the environment does during [__init__]: what
    [torch.cuda.is_available()] returns, whether the constructor of
    [IndexTTS] raises, and the warm-up's part. *)
Record StartEnv := mkStartEnv {
  cuda_is_available : bool;
  model_failure : option exn;
  warm : WarmEnv
}.

(** The places where [__init__] prints. *)
Inductive StartLog :=
| LogLoadingModel                        (* "Loading IndexTTS model..." *)
| LogDevice (device : string)            (* "IndexTTS device: ..." *)
| LogModelDir (model_dir : path)         (* "Using model directory: ..." *)
| LogConfigPath (config_path : path)     (* "Using config path: ..." *)
| LogRequiredMissing (file_path : path)  (* "Required file not found: ..." *)
| LogRequiredFound (file_path : path)    (* "Found: ..." *)
| LogModelLoaded                         (* "IndexTTS model loaded successfully!" *)
| LogModelInitFailed (e : exn)           (* "Failed to initialize IndexTTS: ..." *)
| LogDefaultVoiceFound (p : path)        (* "Default voice file found: ..." *)
| LogDefaultVoiceMissing (p : path).     (* "Default voice file not found: ..." and
                                            "Voice file will need to be provided in each request" *)

(** What [__init__] does, in order: its own prints, the construction of
    the model, the connection of the socket, and then the events of the
    server proper (registration, warm-up, loop). *)
Inductive StartEvent :=
| SPrint (l : StartLog)
| SLoadModel (cfg_path model_dir : path) (is_fp16 : bool) (device : string)
             (use_cuda_kernel : bool)    (* IndexTTS(cfg_path=, model_dir=, ...) *)
| SConnect (url : string)                (* socket.connect(url) *)
| SServer (ev : Event).

(** The attributes of the server object the rest of the code uses. *)
Record Server := mkServer {
  srv_default_voice : path;
  srv_url : string
}.

Definition required_files : list string :=
  ["bigvgan_generator.pth"; "bpe.model"; "gpt.pth"; "config.yaml"].

(** The [for file in required_files] loop of [__init__]: the first file
    that does not exist raises [FileNotFoundError], whose message names
    the file. *)
Fixpoint check_required_files (f : FS) (model_dir : path) (files : list string)
  : list StartEvent * option exn :=
  match files with
  | [] => ([], None)
  | file :: files' =>
      let file_path := join model_dir file in
      if negb (path_exists f file_path) then
        ([SPrint (LogRequiredMissing file_path)], Some (FileNotFoundError [file]))
      else
        let '(evs, r) := check_required_files f model_dir files' in
        (SPrint (LogRequiredFound file_path) :: evs, r)
  end.

(** [IndexTtsServer.__init__()]; [current_dir] is the directory of the
    script.  The result is the events, the state in which [__init__]
    ends, and the server object or the exception that left [__init__].
    [zmq.Context()], [socket(zmq.DEALER)] and [connect] are taken not to
    raise; the registration and the warm-up are [init_tail]. *)
Definition init (current_dir : path) (environ : Environ) (o : StartEnv) (f : FS)
  : list StartEvent * State * (exn + Server) :=
  let device := if cuda_is_available o then "cuda:0" else "cpu" in
  let device := environ_get (env_DEVICE environ) device in
  let model_dir :=
    environ_get (env_INDEX_TTS_MODEL_DIR environ) (join current_dir "checkpoints") in
  let config_path := join model_dir "config.yaml" in
  let evs0 := [SPrint LogLoadingModel; SPrint (LogDevice device);
               SPrint (LogModelDir model_dir); SPrint (LogConfigPath config_path)] in
  match check_required_files f model_dir required_files with
  | (evs1, Some e) => ((evs0 ++ evs1)%list, initial_state f, inl e)
  | (evs1, None) =>
      let load := SLoadModel config_path model_dir false device false in
      match model_failure o with
      | Some e =>
          ((evs0 ++ evs1 ++ [load; SPrint (LogModelInitFailed e)])%list,
           initial_state f, inl e)
      | None =>
          let default_voice :=
            environ_get (env_INDEX_TTS_DEFAULT_VOICE environ)
                        (join current_dir "coXTTS.wav") in
          let voice_line :=
            if path_exists f default_voice then LogDefaultVoiceFound default_voice
            else LogDefaultVoiceMissing default_voice in
          let url :=
            environ_get (env_ZMQ_BACKEND_ROUTER_URL environ) "tcp://localhost:5560" in
          let tail := init_tail default_voice (warm o) (initial_state f) in
          ((evs0 ++ evs1
              ++ [load; SPrint LogModelLoaded; SPrint voice_line; SConnect url]
              ++ map SServer (events tail))%list,
           final tail,
           match result tail with
           | inl e => inl e
           | inr _ => inr (mkServer default_voice url)
           end)
      end
  end.

(** The process: [main()] builds the server and calls its [run]. *)
Definition process (current_dir : path) (environ : Environ) (o : StartEnv)
    (envs : list Env) (f : FS) : list StartEvent * State * (exn + unit) :=
  match init current_dir environ o f with
  | (evs, st, inl e) => (evs, st, inl e)
  | (evs, st, inr server) =>
      let served := run (srv_default_voice server) envs st in
      ((evs ++ map SServer (events served))%list, final served, result served)
  end.

(** The events of the server proper among those of the process. *)
Definition server_events (evs : list StartEvent) : list Event :=
  omap (λ ev, match ev with SServer e => Some e | _ => None end) evs.

(** The model constructions among the events of the process. *)
Definition model_loads (evs : list StartEvent) : list (path * path * string) :=
  omap (λ ev, match ev with
              | SLoadModel cfg dir _ device _ => Some (cfg, dir, device)
              | _ => None
              end) evs.

(** The connections of the socket among the events of the process. *)
Definition connections (evs : list StartEvent) : list string :=
  omap (λ ev, match ev with SConnect url => Some url | _ => None end) evs.

Module StartFixture.

(** [/app/checkpoints] with the four model files, beside the default
    voice file of [Fixture.disk_voice]; no variable set. *)
Definition checkpoints : path := ["app"; "checkpoints"].

Definition disk_checkpoints : FS :=
  <[ join checkpoints "config.yaml" := File [] ]>
  (<[ join checkpoints "gpt.pth" := File [] ]>
  (<[ join checkpoints "bpe.model" := File [] ]>
  (<[ join checkpoints "bigvgan_generator.pth" := File [] ]>
  (<[ checkpoints := Dir ]> Fixture.disk_voice)))).

Definition environ_unset : Environ := mkEnviron None None None None.

Definition start_ok : StartEnv :=
  mkStartEnv false None (Fixture.warm_env Fixture.model_ok).

Definition start_model_fails : StartEnv :=
  mkStartEnv false (Some (ModelError "checkpoint is corrupt"))
    (Fixture.warm_env Fixture.model_ok).

End StartFixture.

Local Open Scope list_scope.

(* ===================================================================== *)
(** * Properties *)
(* ===================================================================== *)

(* ===================================================================== *)
(** ** Proof tools *)
(* ===================================================================== *)

(** Unfolds the monad and the primitives, and nothing of the maps below
    them. *)
Ltac munfold :=
  cbv beta iota zeta delta
    [bind ret raise try_except with_closing emit print get_disk put_disk
     os_path_exists os_path_getsize os_makedirs write_file read_file os_remove
     os_rmdir mkdtemp NamedTemporaryFile close_temporary_file recv_multipart
     send_multipart index assign_message read_message decode_utf8 infer_fast
     warm_up_models cleanup run_try run_except run_iteration
     events final result disk message set_disk set_message
     delivery tempdir_pick inference tempfile_pick warm_inference negb].

(** Splits on the innermost scrutinee that blocks the computation. *)
Ltac mcase :=
  match goal with
  | |- context [match ?x with _ => _ end] =>
      lazymatch x with
      | context [match _ with _ => _ end] => fail
      | _ => destruct x eqn:?
      end
  end.

Ltac mcases := repeat (mcase; munfold).

(** *** Lists of frames *)

Lemma take_3_short {A} (l : list A) : length l < 4 → take 3 l = l.
Proof. intros H. apply take_ge. lia. Qed.

Lemma lookup_3_short {A} (l : list A) : length l < 4 → l !! 3 = None.
Proof. intros H. apply lookup_ge_None. lia. Qed.

Lemma take_3_take_4 {A} (l : list A) : take 3 (take 4 l) = take 3 l.
Proof. rewrite take_take. reflexivity. Qed.

Lemma lookup_3_take_4 {A} (l : list A) : take 4 l !! 3 = l !! 3.
Proof. apply lookup_take_lt. lia. Qed.

Lemma four_frames {A} (l : list A) :
  length l = 4 → ∃ a b c p, l = [a; b; c; p].
Proof.
  destruct l as [|a [|b [|c [|p [|q l]]]]]; cbn; intros H; try discriminate.
  eauto.
Qed.

(** *** Projections of the event log *)

Lemma sends_nil : sends [] = [].
Proof. reflexivity. Qed.
Lemma sends_app evs evs' : sends (evs ++ evs') = sends evs ++ sends evs'.
Proof. apply omap_app. Qed.
Lemma sends_send frames evs : sends (ESend frames :: evs) = frames :: sends evs.
Proof. reflexivity. Qed.
Lemma sends_infer v t o evs : sends (EInfer v t o :: evs) = sends evs.
Proof. reflexivity. Qed.
Lemma sends_print l evs : sends (EPrint l :: evs) = sends evs.
Proof. reflexivity. Qed.

Lemma infer_calls_nil : infer_calls [] = [].
Proof. reflexivity. Qed.
Lemma infer_calls_app evs evs' :
  infer_calls (evs ++ evs') = infer_calls evs ++ infer_calls evs'.
Proof. apply omap_app. Qed.
Lemma infer_calls_send frames evs : infer_calls (ESend frames :: evs) = infer_calls evs.
Proof. reflexivity. Qed.
Lemma infer_calls_infer v t o evs :
  infer_calls (EInfer v t o :: evs) = (v, t, o) :: infer_calls evs.
Proof. reflexivity. Qed.
Lemma infer_calls_print l evs : infer_calls (EPrint l :: evs) = infer_calls evs.
Proof. reflexivity. Qed.

Lemma warmup_starts_nil : warmup_starts [] = 0.
Proof. reflexivity. Qed.
Lemma warmup_starts_app evs evs' :
  warmup_starts (evs ++ evs') = warmup_starts evs + warmup_starts evs'.
Proof. unfold warmup_starts. rewrite omap_app. apply length_app. Qed.
Lemma warmup_starts_send frames evs : warmup_starts (ESend frames :: evs) = warmup_starts evs.
Proof. reflexivity. Qed.
Lemma warmup_starts_infer v t o evs : warmup_starts (EInfer v t o :: evs) = warmup_starts evs.
Proof. reflexivity. Qed.
Lemma warmup_starts_print l evs :
  warmup_starts (EPrint l :: evs)
  = match l with LogWarmupStart => S (warmup_starts evs) | _ => warmup_starts evs end.
Proof. destruct l; reflexivity. Qed.

Create Rewrite HintDb evlog.
#[local] Hint Rewrite sends_nil sends_app sends_send sends_infer sends_print
  infer_calls_nil infer_calls_app infer_calls_send infer_calls_infer infer_calls_print
  warmup_starts_nil warmup_starts_app warmup_starts_send warmup_starts_infer
  warmup_starts_print : evlog.

(** Normalises a projection of a concrete event list around opaque
    segments. *)
Ltac evlog := autorewrite with evlog; cbn [app Nat.add].

(** *** The adapter never raises, never sends, never touches [message] *)

Lemma process_text_total dv io text out v st :
  ∃ s, result (process_text dv io text out v st) = inr s
       ∧ message (final (process_text dv io text out v st)) = message st
       ∧ sends (events (process_text dv io text out v st)) = []
       ∧ warmup_starts (events (process_text dv io text out v st)) = 0.
Proof.
  unfold process_text. munfold. destruct st as [f m].
  mcases; evlog; eauto.
Qed.

(** *** The two ways out of the outer [try] *)

(** Once an envelope is received, [message] holds it, and the body of the
    [try] either raises before any send or sends once and returns. *)
Lemma run_try_cases dv e st msg :
  delivery e = inr msg →
  message (final (run_try dv e st)) = Some msg
  ∧ ((∃ ex, result (run_try dv e st) = inl ex
            ∧ sends (events (run_try dv e st)) = [])
     ∨ (∃ data, result (run_try dv e st) = inr tt
            ∧ sends (events (run_try dv e st)) = [take 3 msg ++ [data]])).
Proof.
  intros Hrecv. destruct e as [dl pick io]. cbn in Hrecv. subst dl.
  destruct st as [f m]. munfold.
  repeat first
    [ match goal with
      | |- context [process_text ?a ?b ?c ?d ?v ?s] =>
          destruct (process_text_total a b c d v s) as (status & Hres & Hmsg & Hsends & _);
          destruct (process_text a b c d v s) as [evs [f' m'] r];
          cbn [result final events message] in Hres, Hmsg, Hsends; subst r m'
      end
    | mcase; munfold ];
  evlog; rewrite ?Hsends; cbn [app]; (split; [reflexivity|]); eauto.
Qed.

(** *** One iteration, seen from outside *)

Lemma run_iteration_unfold dv e st :
  run_iteration dv e st
  = match run_try dv e st with
    | mkOut evs st1 (inl ex) =>
        match run_except ex st1 with
        | mkOut evs' st2 r => mkOut (evs ++ evs') st2 r
        end
    | mkOut evs st1 (inr a) => mkOut evs st1 (inr a)
    end.
Proof. reflexivity. Qed.

Lemma run_except_bound ex st msg :
  message st = Some msg →
  run_except ex st
  = mkOut [EPrint (LogRequestError ex); ESend (take 3 msg ++ [[]])] st (inr tt).
Proof. intros H. destruct st as [f m]. cbn in H. subst m. reflexivity. Qed.

Lemma run_except_unbound ex st :
  message st = None →
  run_except ex st = mkOut [EPrint (LogRequestError ex)] st (inl UnboundLocalError).
Proof. intros H. destruct st as [f m]. cbn in H. subst m. reflexivity. Qed.

Lemma run_cons dv e envs st :
  run dv (e :: envs) st
  = match run_iteration dv e st with
    | mkOut evs st1 (inl ex) => mkOut evs st1 (inl ex)
    | mkOut evs st1 (inr _) =>
        match run dv envs st1 with
        | mkOut evs' st2 r => mkOut (evs ++ evs') st2 r
        end
    end.
Proof. reflexivity. Qed.

(** Once the envelope is received, the iteration sends one reply made of
    its first three frames and a payload, and ends without an exception. *)
Lemma run_iteration_received dv e st msg :
  delivery e = inr msg →
  ∃ data,
    result (run_iteration dv e st) = inr tt
    ∧ sends (events (run_iteration dv e st)) = [take 3 msg ++ [data]]
    ∧ message (final (run_iteration dv e st)) = Some msg.
Proof.
  intros Hrecv. rewrite run_iteration_unfold.
  destruct (run_try_cases dv e st msg Hrecv) as [Hmsg Hcases].
  destruct (run_try dv e st) as [evs st1 r]. cbn [result events final] in *.
  destruct Hcases as [(ex & -> & Hs) | (data & -> & Hs)].
  - rewrite (run_except_bound ex st1 msg Hmsg). exists []. cbn [result events final].
    rewrite sends_app, Hs. auto.
  - exists data. auto.
Qed.

(** The same along a run in which every receive delivers: the loop is
    still running after the last of them, and the replies are one per
    request, in the order of the requests. *)
Lemma run_replies_in_order dv envs st :
  Forall (λ e, ∃ msg, delivery e = inr msg) envs →
  result (run dv envs st) = inr tt
  ∧ Forall2 (λ e reply, ∃ msg data, delivery e = inr msg ∧ reply = take 3 msg ++ [data])
            envs (sends (events (run dv envs st))).
Proof.
  intros Hall. revert st. induction Hall as [|e envs [msg Hmsg] _ IH]; intros st.
  - split; [reflexivity | constructor].
  - rewrite run_cons.
    destruct (run_iteration_received dv e st msg Hmsg) as (data & Hr & Hs & _).
    destruct (run_iteration dv e st) as [evs st1 r]. cbn [result events final] in *.
    subst r. destruct (IH st1) as [IHr IHs].
    destruct (run dv envs st1) as [evs' st2 r']. cbn [result events final] in *.
    split; [assumption|]. rewrite sends_app, Hs. cbn [app].
    constructor; eauto.
Qed.

(** C1: for every request whose envelope has been received, the iteration
    that received it sends exactly one reply, built from the first three
    frames of that same envelope, and ends without an exception, whatever
    decoding, [mkdtemp] and the synthesis call do; only then does the loop
    go on to the next receive, so in the log of the run that reply comes
    before everything the rest of the run sends. *)
Theorem run_iteration_replies_exactly_once dv e st msg :
  delivery e = inr msg →
  ∃ data,
    result (run_iteration dv e st) = inr tt
    ∧ sends (events (run_iteration dv e st)) = [take 3 msg ++ [data]]
    ∧ message (final (run_iteration dv e st)) = Some msg
    ∧ ∀ envs,
        result (run dv (e :: envs) st)
        = result (run dv envs (final (run_iteration dv e st)))
        ∧ sends (events (run dv (e :: envs) st))
          = (take 3 msg ++ [data])
              :: sends (events (run dv envs (final (run_iteration dv e st)))).
Proof.
  intros Hrecv.
  destruct (run_iteration_received dv e st msg Hrecv) as (data & Hres & Hs & Hmsg).
  exists data. split; [exact Hres|]. split; [exact Hs|]. split; [exact Hmsg|].
  intros envs. rewrite run_cons.
  destruct (run_iteration dv e st) as [evs st1 r]. cbn [result events final] in *.
  subst r. destruct (run dv envs st1) as [evs' st2 r']. cbn [result events].
  split; [reflexivity|]. rewrite sends_app, Hs. reflexivity.
Qed.

Lemma run_iteration_replies_exactly_once_witness :
  delivery (Fixture.env Fixture.request Fixture.model_ok) = inr Fixture.request
  ∧ ∃ data,
      result Fixture.served = inr tt
      ∧ sends (events Fixture.served) = [take 3 Fixture.request ++ [data]]
      ∧ message (final Fixture.served) = Some Fixture.request.
Proof.
  split; [reflexivity|].
  destruct (run_iteration_replies_exactly_once Fixture.voice
              (Fixture.env Fixture.request Fixture.model_ok)
              (initial_state Fixture.disk_voice) Fixture.request eq_refl)
    as (data & Hres & Hs & Hmsg & _).
  exists data. split; [exact Hres|]. split; [exact Hs | exact Hmsg].
Defined.

(** *** [os.makedirs] on a directory that is there *)

Lemma is_dir_path_exists f p : is_dir f p = true → path_exists f p = true.
Proof.
  unfold is_dir, path_exists. destruct p; [done|].
  destruct (f !! _) as [[]|]; done.
Qed.

Lemma makedirs_noop f p :
  is_dir f p = true → path_exists f (dirname p) = true →
  makedirs_rev (rev p) f = inr f.
Proof.
  destruct p as [|x p' _] using rev_ind; [reflexivity|].
  intros Hd Hp. unfold dirname in Hp. rewrite removelast_last in Hp.
  rewrite rev_unit. cbn [makedirs_rev]. rewrite rev_involutive, Hp.
  change (rev (x :: rev p')) with (rev (rev p') ++ [x]).
  rewrite rev_involutive. unfold is_dir in Hd.
  destruct (p' ++ [x]) eqn:E; [by destruct p'|]. rewrite <- E in *.
  destruct (f !! (p' ++ [x])) as [[]|]; done.
Qed.

Lemma dirname_join d name : dirname (join d name) = d.
Proof. unfold dirname, join. apply removelast_last. Qed.

Lemma join_not_root d name : join d name ≠ [].
Proof. unfold join. by destruct d. Qed.

Lemma fresh_not_root (f : FS) d : path_exists f d = false → d ≠ [].
Proof. by destruct d. Qed.

Lemma path_exists_lookup (f : FS) p :
  p ≠ [] → path_exists f p = bool_decide (is_Some (f !! p)).
Proof.
  intros Hp. unfold path_exists. destruct p; [done|].
  destruct (f !! _) eqn:E; symmetry.
  - apply bool_decide_eq_true. eauto.
  - apply bool_decide_eq_false. by intros [? ?].
Qed.

Lemma is_dir_lookup (f : FS) p : p ≠ [] → is_dir f p = true ↔ f !! p = Some Dir.
Proof.
  intros Hp. unfold is_dir. destruct p; [done|].
  destruct (f !! _) as [[]|]; split; congruence.
Qed.

Lemma path_exists_insert (f : FS) p q n :
  path_exists f p = true → path_exists (<[q := n]> f) p = true.
Proof.
  unfold path_exists. destruct p; [done|].
  destruct (decide (q = s :: p)) as [->|Hne].
  - by rewrite lookup_insert_eq.
  - by rewrite lookup_insert_ne.
Qed.

(** In the directory [mkdtemp] has just made, [os.makedirs] has nothing
    to do. *)
Lemma makedirs_tempdir (f : FS) d :
  path_exists f d = false → is_dir f (dirname d) = true →
  makedirs_rev (rev (dirname (join d "response.wav"))) (<[d := Dir]> f)
  = inr (<[d := Dir]> f).
Proof.
  intros Hfresh Hparent. rewrite dirname_join. apply makedirs_noop.
  - apply is_dir_lookup; [by eapply fresh_not_root|]. apply lookup_insert_eq.
  - by apply path_exists_insert, is_dir_path_exists.
Qed.

(** *** The adapter and the model call *)

(** The adapter neither reads nor writes [message]. *)
Lemma process_text_frame dv io text out v f m :
  process_text dv io text out v (mkState f m)
  = match process_text dv io text out v (mkState f None) with
    | mkOut evs st r => mkOut evs (mkState (disk st) m) r
    end.
Proof. unfold process_text. munfold. mcases; reflexivity. Qed.

(** The voice reference the adapter passes on. *)
Definition effective_voice (default_voice : path) (voice_file : option path) : path :=
  match voice_file with Some v => v | None => default_voice end.

(** Whenever the output directory can be made, the model is called, once,
    with the effective voice reference, whether or not that file exists. *)
Lemma process_text_infer_calls dv io text out v st :
  result (os_makedirs (dirname out) st) = inr tt →
  infer_calls (events (process_text dv io text out v st))
  = [(effective_voice dv v, text, out)].
Proof.
  unfold process_text. destruct st as [f m]. munfold.
  mcases; intros; try discriminate; reflexivity.
Qed.

Lemma process_text_no_call dv io text out v st ex :
  result (os_makedirs (dirname out) st) = inl ex →
  infer_calls (events (process_text dv io text out v st)) = [].
Proof.
  unfold process_text. destruct st as [f m]. munfold.
  mcases; intros; try discriminate; reflexivity.
Qed.

(** A request that gets as far as the synthesis call: the model is invoked
    once, on the text decoded from frame 3, with the default voice and the
    artifact path inside the new directory. *)
Lemma run_iteration_infer_call dv e st msg payload d text :
  delivery e = inr msg → msg !! 3 = Some payload →
  tempdir_pick e = inr d →
  path_exists (disk st) d = false → is_dir (disk st) (dirname d) = true →
  utf8_decode payload = Some text →
  infer_calls (events (run_iteration dv e st)) = [(dv, text, join d "response.wav")].
Proof.
  intros Hrecv Hpay Hpick Hfresh Hparent Hdec.
  destruct e as [dl pick io]. cbn in Hrecv, Hpick. subst dl pick.
  destruct st as [f m]. cbn [disk] in *. munfold.
  rewrite Hpay, Hfresh, Hparent, Hdec. munfold.
  assert (infer_calls (events (process_text dv io text (join d "response.wav") None
                (mkState (<[d:=Dir]> f) (Some msg))))
          = [(dv, text, join d "response.wav")]) as Hcall.
  { apply (process_text_infer_calls dv io text _ None). munfold.
    rewrite makedirs_tempdir by assumption. reflexivity. }
  pose proof (process_text_total dv io text (join d "response.wav") None
                (mkState (<[d:=Dir]> f) (Some msg))) as (status & Hres & _).
  destruct (process_text _ _ _ _ _ _) as [evs [f' m'] r].
  cbn [events result] in *. subst r.
  mcases; evlog; rewrite ?Hcall; reflexivity.
Qed.

(** C2 (the code departs from the claim): when [recv_multipart] raises,
    the [except] clause still builds a reply from [message].  In the first
    iteration [message] is unbound: reading it raises inside the handler,
    the exception leaves [run], and the requests still to come ([rest])
    are never received.  In a later iteration [message] still holds the
    previous envelope [prev], and an empty reply is sent to its first three
    frames. *)
Theorem receive_failure_escapes_or_replies dv err pick io rest f prev :
  run dv (mkEnv (inl err) pick io :: rest) (initial_state f)
  = mkOut [EPrint LogReady; EPrint (LogRequestError err)]
          (initial_state f) (inl UnboundLocalError)
  ∧ run_iteration dv (mkEnv (inl err) pick io) (mkState f (Some prev))
    = mkOut [EPrint LogReady; EPrint (LogRequestError err);
             ESend (take 3 prev ++ [[]])]
            (mkState f (Some prev)) (inr tt).
Proof. split; reflexivity. Qed.

(** *** Frames beyond index 3 *)

(** The body of the [try] looks at an envelope only through its frame 3
    and its first three frames. *)
Lemma run_try_truncate dv msg pick io st :
  match run_try dv (mkEnv (inr msg) pick io) st,
        run_try dv (mkEnv (inr (take 4 msg)) pick io) st with
  | mkOut evs st1 r, mkOut evs' st1' r' =>
      evs = evs' ∧ disk st1 = disk st1' ∧ r = r'
      ∧ message st1 = Some msg ∧ message st1' = Some (take 4 msg)
  end.
Proof.
  destruct st as [f m]. munfold.
  rewrite lookup_3_take_4, take_3_take_4.
  repeat first
    [ match goal with
      | |- context [process_text ?a ?b ?c ?d ?v (mkState ?g (Some (take 4 msg)))] =>
          rewrite (process_text_frame a b c d v g (Some (take 4 msg)));
          rewrite (process_text_frame a b c d v g (Some msg));
          destruct (process_text a b c d v (mkState g None)) as [evs [f' m'] r]
      end
    | mcase; munfold ];
  auto.
Qed.

(** C10: the payload is the frame at index 3 and the echoed frames are
    frames 0 to 2, whatever the length of the envelope.  With fewer than 4
    frames the index is out of range: the iteration goes through the
    [except] clause with [IndexError], creates no directory, calls no model
    and replies with the frames it has and an empty payload.  With more
    frames, the iteration does what it does on the first four alone: the
    same events (so the same reply), the same file system, the same
    result. *)
Theorem fixed_index_framing dv e st msg :
  delivery e = inr msg →
  (∃ data, sends (events (run_iteration dv e st)) = [take 3 msg ++ [data]])
  ∧ (∀ payload d text,
        msg !! 3 = Some payload → tempdir_pick e = inr d →
        path_exists (disk st) d = false → is_dir (disk st) (dirname d) = true →
        utf8_decode payload = Some text →
        infer_calls (events (run_iteration dv e st))
        = [(dv, text, join d "response.wav")])
  ∧ (length msg < 4 →
        run_iteration dv e st
        = mkOut [EPrint LogReady; EPrint (LogRequestError IndexError);
                 ESend (msg ++ [[]])]
                (set_message msg st) (inr tt))
  ∧ (let e' := mkEnv (inr (take 4 msg)) (tempdir_pick e) (inference e) in
     events (run_iteration dv e st) = events (run_iteration dv e' st)
     ∧ disk (final (run_iteration dv e st)) = disk (final (run_iteration dv e' st))
     ∧ result (run_iteration dv e st) = result (run_iteration dv e' st)).
Proof.
  intros Hrecv. split; [|split; [|split]].
  - destruct (run_iteration_received dv e st msg Hrecv) as (data & _ & Hs & _). eauto.
  - intros payload d text. by apply run_iteration_infer_call.
  - intros Hlen. destruct e as [dl pick io]. cbn in Hrecv. subst dl.
    destruct st as [f m]. munfold.
    rewrite (lookup_3_short msg Hlen), (take_3_short msg Hlen). reflexivity.
  - destruct e as [dl pick io]. cbn in Hrecv. subst dl. cbn [tempdir_pick inference].
    rewrite !run_iteration_unfold.
    pose proof (run_try_truncate dv msg pick io st) as H.
    destruct (run_try dv (mkEnv (inr msg) pick io) st) as [evs st1 r].
    destruct (run_try dv (mkEnv (inr (take 4 msg)) pick io) st) as [evs' st1' r'].
    destruct H as (-> & Hd & -> & Hm & Hm').
    destruct r' as [ex|[]]; [|by cbn].
    rewrite (run_except_bound ex st1 msg Hm), (run_except_bound ex st1' _ Hm').
    cbn [events final result]. rewrite take_3_take_4. auto.
Qed.

Lemma fixed_index_framing_witness :
  delivery (Fixture.env Fixture.request_three Fixture.model_ok) = inr Fixture.request_three
  ∧ length Fixture.request_three < 4
  ∧ run_iteration Fixture.voice (Fixture.env Fixture.request_three Fixture.model_ok)
      (initial_state Fixture.disk_voice)
    = mkOut [EPrint LogReady; EPrint (LogRequestError IndexError);
             ESend (Fixture.request_three ++ [[]])]
            (set_message Fixture.request_three (initial_state Fixture.disk_voice))
            (inr tt).
Proof.
  split; [reflexivity|]. split; [vm_compute; lia|].
  apply (fixed_index_framing Fixture.voice
           (Fixture.env Fixture.request_three Fixture.model_ok)
           (initial_state Fixture.disk_voice) Fixture.request_three eq_refl).
  vm_compute. lia.
Defined.

(** *** What is read back from the artifact path *)

Lemma file_content_not_exists (f : FS) p :
  path_exists f p = false → file_content f p = None.
Proof.
  unfold path_exists, file_content. destruct p; [done|].
  by destruct (f !! _).
Qed.

Lemma file_content_is_dir (f : FS) p :
  p ≠ [] → is_dir f p = true → file_content f p = None.
Proof.
  intros Hp Hd. apply is_dir_lookup in Hd; [|done].
  unfold file_content. by rewrite Hd.
Qed.

(** The reply of a request that reaches the synthesis call. *)
Lemma run_iteration_reply_reached dv e st msg payload d text o :
  delivery e = inr msg → msg !! 3 = Some payload →
  tempdir_pick e = inr d →
  path_exists (disk st) d = false → is_dir (disk st) (dirname d) = true →
  utf8_decode payload = Some text →
  process_text dv (inference e) text (join d "response.wav") None
    (mkState (<[d := Dir]> (disk st)) (Some msg)) = o →
  sends (events (run_iteration dv e st))
  = [take 3 msg ++ [artifact_or_sentinel (disk (final o)) (join d "response.wav")]].
Proof.
  intros Hrecv Hpay Hpick Hfresh Hparent Hdec Hpt.
  destruct e as [dl pick io].
  cbn [delivery tempdir_pick inference] in Hrecv, Hpick, Hpt. subst dl pick.
  destruct st as [f m]. cbn [disk] in *.
  destruct (process_text_total dv io text (join d "response.wav") None
              (mkState (<[d:=Dir]> f) (Some msg))) as (status & Hres & Hmsg & Hsends & _).
  rewrite Hpt in Hres, Hmsg, Hsends. destruct o as [evs [f' m'] r].
  cbn [result events final message] in Hres, Hmsg, Hsends. subst r m'.
  munfold. rewrite Hpay, Hfresh, Hparent, Hdec. munfold. rewrite Hpt.
  unfold artifact_or_sentinel.
  mcases; evlog; rewrite Hsends; cbn [app]; simplify_eq;
    repeat match goal with
    | H : file_content ?g ?p = Some _, H' : path_exists ?g ?p = false |- _ =>
        rewrite (file_content_not_exists g p H') in H; discriminate
    | H : file_content ?g (join ?d ?n) = Some _, H' : is_dir ?g (join ?d ?n) = true |- _ =>
        rewrite (file_content_is_dir g _ (join_not_root d n) H') in H; discriminate
    end;
    rewrite ?file_content_not_exists by assumption;
    rewrite ?file_content_is_dir by (assumption || apply join_not_root);
    reflexivity.
Qed.

(** The reply of a request that does not get that far. *)
Lemma run_iteration_reply_not_reached dv e st msg :
  delivery e = inr msg →
  msg !! 3 = None
  ∨ (∃ ex, result (mkdtemp (tempdir_pick e) st) = inl ex)
  ∨ (∃ payload, msg !! 3 = Some payload ∧ utf8_decode payload = None) →
  sends (events (run_iteration dv e st)) = [take 3 msg ++ [[]]].
Proof.
  intros Hrecv Hwhy. destruct e as [dl pick io]. cbn in Hrecv. subst dl.
  destruct st as [f m]. revert Hwhy. munfold.
  intros [Hno | [[ex Hmk] | (payload & Hpay & Hdec)]].
  - rewrite Hno. reflexivity.
  - revert Hmk. mcases; intros; try discriminate; reflexivity.
  - rewrite Hpay, Hdec. mcases; reflexivity.
Qed.

(** C6: the payload frame of the reply is the content of the artifact
    file as the synthesis call left it, and empty when there is no such
    file then; it is empty as well for a request that never reaches the
    synthesis call (no frame 3, no directory, or a payload that is not
    UTF-8). *)
Theorem reply_payload_is_artifact_or_sentinel dv e st msg :
  delivery e = inr msg →
  ∃ data,
    sends (events (run_iteration dv e st)) = [take 3 msg ++ [data]]
    ∧ (∀ payload d text,
          msg !! 3 = Some payload → tempdir_pick e = inr d →
          path_exists (disk st) d = false → is_dir (disk st) (dirname d) = true →
          utf8_decode payload = Some text →
          data = artifact_or_sentinel
                   (disk (final (process_text dv (inference e) text
                                   (join d "response.wav") None
                                   (mkState (<[d := Dir]> (disk st)) (Some msg)))))
                   (join d "response.wav"))
    ∧ (msg !! 3 = None → data = [])
    ∧ (∀ ex, result (mkdtemp (tempdir_pick e) st) = inl ex → data = [])
    ∧ (∀ payload, msg !! 3 = Some payload → utf8_decode payload = None → data = []).
Proof.
  intros Hrecv.
  destruct (run_iteration_received dv e st msg Hrecv) as (data & _ & Hs & _).
  assert (∀ x, sends (events (run_iteration dv e st)) = [take 3 msg ++ [x]] → data = x)
    as Hdata.
  { intros x Hx. rewrite Hs in Hx. by simplify_list_eq. }
  exists data. split; [assumption|]. split; [|split; [|split]].
  - intros payload d text Hpay Hpick Hfresh Hparent Hdec.
    by eapply Hdata, run_iteration_reply_reached.
  - intros Hno. apply Hdata, run_iteration_reply_not_reached; auto.
  - intros ex Hmk. apply Hdata, run_iteration_reply_not_reached; eauto.
  - intros payload Hpay Hdec. apply Hdata, run_iteration_reply_not_reached; eauto 6.
Qed.

Lemma reply_payload_is_artifact_or_sentinel_witness :
  delivery (Fixture.env Fixture.request Fixture.model_ok) = inr Fixture.request
  ∧ sends (events Fixture.served) = [Fixture.routing ++ [Fixture.audio]].
Proof.
  split; [reflexivity|].
  destruct (reply_payload_is_artifact_or_sentinel Fixture.voice
              (Fixture.env Fixture.request Fixture.model_ok)
              (initial_state Fixture.disk_voice) Fixture.request eq_refl)
    as (data & Hs & Hreached & _).
  unfold Fixture.served. rewrite Hs.
  rewrite (Hreached Fixture.ok Fixture.tempdir [111%N; 107%N]
             eq_refl eq_refl eq_refl eq_refl eq_refl).
  vm_compute. reflexivity.
Defined.

(** C3, as stated, fails: on an envelope of five frames the reply is not
    the four frames before the last one followed by a payload (the reply
    has four frames, the first three and a payload), and the text handed
    to the model is frame 3, not the last frame. *)
Lemma five_frame_envelope_reply :
  ¬ (∃ data,
       sends (events (run_iteration Fixture.voice
                        (Fixture.env Fixture.request_five Fixture.model_ok)
                        (initial_state Fixture.disk_no_voice)))
       = [spec_routing_frames Fixture.request_five ++ [data]]).
Proof. vm_compute. intros [data H]. discriminate H. Qed.

(** C3, amended to envelopes of exactly four frames: the payload frame
    the code reads is then the last frame, the reply is the routing frames
    (all frames but the last) in order followed by one payload frame, so it
    has one frame more than there are routing frames; and when the request
    reaches the synthesis call, the model gets the text decoded from the
    last frame. *)
Theorem four_frame_envelope_reply dv e st msg :
  delivery e = inr msg → length msg = 4 →
  msg !! 3 = spec_payload_frame msg
  ∧ (∃ data,
       sends (events (run_iteration dv e st)) = [spec_routing_frames msg ++ [data]]
       ∧ length (spec_routing_frames msg ++ [data])
         = length (spec_routing_frames msg) + 1)
  ∧ (∀ payload d text,
       spec_payload_frame msg = Some payload → tempdir_pick e = inr d →
       path_exists (disk st) d = false → is_dir (disk st) (dirname d) = true →
       utf8_decode payload = Some text →
       infer_calls (events (run_iteration dv e st))
       = [(dv, text, join d "response.wav")]).
Proof.
  intros Hrecv Hlen.
  destruct (four_frames msg Hlen) as (a & b & c & p & ->).
  split; [reflexivity|]. split.
  - destruct (run_iteration_received dv e st _ Hrecv) as (data & _ & Hs & _).
    exists data. split; [exact Hs | reflexivity].
  - intros payload d text Hpay.
    by apply (run_iteration_infer_call dv e st [a; b; c; p] payload d text Hrecv).
Qed.

Lemma four_frame_envelope_reply_witness :
  delivery (Fixture.env Fixture.request Fixture.model_ok) = inr Fixture.request
  ∧ length Fixture.request = 4
  ∧ ∃ data,
      sends (events Fixture.served) = [spec_routing_frames Fixture.request ++ [data]]
      ∧ length (spec_routing_frames Fixture.request ++ [data])
        = length (spec_routing_frames Fixture.request) + 1.
Proof.
  split; [reflexivity|]. split; [reflexivity|].
  apply (four_frame_envelope_reply Fixture.voice
           (Fixture.env Fixture.request Fixture.model_ok)
           (initial_state Fixture.disk_voice) Fixture.request eq_refl eq_refl).
Defined.

(** *** The three status strings are distinct *)

Lemma status_exception_not_success ex : status_exception ex ≠ status_success.
Proof. unfold status_exception, status_success. cbn. discriminate. Qed.

Lemma status_exception_not_no_audio ex : status_exception ex ≠ status_no_audio.
Proof. unfold status_exception, status_no_audio. cbn. discriminate. Qed.

Lemma status_no_audio_not_success : status_no_audio ≠ status_success.
Proof. discriminate. Qed.

(** C5: [process_text] always returns one of three statuses.  It returns
    the success status exactly when the model call was made, returned
    without raising, and the output file exists afterwards; the
    "failed to generate audio" status exactly when the call returned and
    the file does not exist; and otherwise the status that carries the
    text of the exception, which for an exception raised by the model is
    the model's message.  The existence of the file is checked after the
    call, whatever the call returned.  The state [process_text] leaves is
    the state the model call left (the state it was called in, when
    [os.makedirs] raised), and its events hold that one model call (none,
    when [os.makedirs] raised): so after the success status the output
    file does exist and the model has been called once, and after the
    "failed to generate audio" status the model has been called once and
    there is no output file. *)
Theorem process_text_three_outcomes dv io text out v st :
  let prep := os_makedirs (dirname out) st in
  let call := infer_fast io (effective_voice dv v) text out (final prep) in
  let completed := result prep = inr tt ∧ result call = inr tt in
  let created := path_exists (disk (final call)) out = true in
  let outcome := process_text dv io text out v st in
  ∃ status,
    result outcome = inr status
    ∧ (status = status_success ↔ completed ∧ created)
    ∧ (status = status_no_audio ↔ completed ∧ ¬ created)
    ∧ (¬ completed →
       ∃ ex, status = status_exception ex
             ∧ (result prep = inl ex ∨ (result prep = inr tt ∧ result call = inl ex)))
    ∧ (∀ msg, result prep = inr tt → result call = inl (ModelError msg) →
              status = ("Error in text processing: " ++ msg)%string)
    ∧ final outcome = match result prep with
                   | inr _ => final call
                   | inl _ => st
                   end
    ∧ infer_calls (events outcome)
      = match result prep with
        | inr _ => [(effective_voice dv v, text, out)]
        | inl _ => []
        end
    ∧ (status = status_success →
       path_exists (disk (final outcome)) out = true
       ∧ infer_calls (events outcome) = [(effective_voice dv v, text, out)])
    ∧ (status = status_no_audio →
       path_exists (disk (final outcome)) out = false
       ∧ infer_calls (events outcome) = [(effective_voice dv v, text, out)])
    ∧ (path_exists (disk (final outcome)) out = false → status ≠ status_success).
Proof.
  unfold process_text. destruct st as [f m]. destruct v as [v|]; munfold.
  all: mcases; eexists; (split; [reflexivity|]).
  all: pose proof status_exception_not_success as Hes;
       pose proof status_exception_not_no_audio as Hen;
       pose proof status_no_audio_not_success as Hns.
  all: unfold effective_voice.
  all: repeat split; try intuition (congruence || eauto).
  all: try (intros; simplify_eq; reflexivity).
  all: try (intros Hnot; eexists; split; [reflexivity|]; eauto).
Qed.

(** C7 (the code departs from the claim): [process_text] takes the default
    voice when the caller gives none, but never looks whether that file
    exists.  Here [/app/coXTTS.wav] is missing and the model is called all
    the same, with that path as [audio_prompt], whatever the text and
    whatever the model then does; the warm-up, in the same state, looks
    first and makes no call. *)
Theorem missing_default_voice_reaches_model io text :
  path_exists Fixture.disk_no_voice Fixture.voice = false
  ∧ infer_calls
      (events (process_text Fixture.voice io text Fixture.artifact None
                 (initial_state (<[Fixture.tempdir := Dir]> Fixture.disk_no_voice))))
    = [(Fixture.voice, text, Fixture.artifact)]
  ∧ infer_calls
      (events (warm_up_models Fixture.voice (Fixture.warm_env io)
                 (initial_state Fixture.disk_no_voice)))
    = [].
Proof.
  split; [reflexivity|]. split.
  - apply (process_text_infer_calls Fixture.voice io text Fixture.artifact None).
    reflexivity.
  - reflexivity.
Qed.

(** *** The workspace after an iteration *)

(** A payload that is not UTF-8: the directory has been made, the
    [except] clause replies, and nothing removes the directory. *)
Lemma run_iteration_decode_failure dv e st msg payload d :
  delivery e = inr msg → msg !! 3 = Some payload →
  tempdir_pick e = inr d →
  path_exists (disk st) d = false → is_dir (disk st) (dirname d) = true →
  utf8_decode payload = None →
  run_iteration dv e st
  = mkOut [EPrint LogReady; EPrint (LogRequestError UnicodeDecodeError);
           ESend (take 3 msg ++ [[]])]
          (mkState (<[d := Dir]> (disk st)) (Some msg)) (inr tt).
Proof.
  intros Hrecv Hpay Hpick Hfresh Hparent Hdec.
  destruct e as [dl pick io]. cbn in Hrecv, Hpick. subst dl pick.
  destruct st as [f m]. cbn [disk] in *. munfold.
  rewrite Hpay, Hfresh, Hparent, Hdec. reflexivity.
Qed.

(** The inner [try] never lets an exception out and sends nothing. *)
Lemma cleanup_contained temp_audio_path temp_dir st :
  ∃ evs st1, cleanup temp_audio_path temp_dir st = mkOut evs st1 (inr tt)
             ∧ sends evs = [] ∧ message st1 = message st.
Proof.
  destruct st as [f m]. munfold. mcases; eauto.
Qed.

(** When there is no artifact file, [os.remove] raises, [os.rmdir] is
    skipped, and the file system is left as it was. *)
Lemma cleanup_artifact_absent d st :
  path_exists (disk st) (join d "response.wav") = false →
  cleanup (join d "response.wav") d st
  = mkOut [EPrint (LogCleanupWarning (FileNotFoundError (join d "response.wav")))]
          st (inr tt).
Proof.
  intros Habs. destruct st as [f m]. cbn [disk] in Habs. munfold.
  assert (is_dir f (join d "response.wav") = false) as ->.
  { destruct (is_dir f _) eqn:E; [|done].
    apply is_dir_path_exists in E. congruence. }
  by rewrite file_content_not_exists.
Qed.

(** C4 (the code departs from the claim): the directory made for a request
    outlives it on two paths.  When the payload is not UTF-8, the [except]
    clause replies and nothing is removed.  When the model raises and
    leaves no file, the reply is sent, [os.remove] raises, and [os.rmdir]
    is skipped.
    In both cases the directory is still there when the iteration ends. *)
Theorem workspace_directory_outlives_failed_request io :
  let bad := run_iteration Fixture.voice
               (Fixture.env Fixture.request_bad_utf8 io)
               (initial_state Fixture.disk_no_voice) in
  let failed := run_iteration Fixture.voice
                  (Fixture.env Fixture.request Fixture.model_raises)
                  (initial_state Fixture.disk_no_voice) in
  path_exists Fixture.disk_no_voice Fixture.tempdir = false
  ∧ result bad = inr tt
  ∧ sends (events bad) = [Fixture.routing ++ [[]]]
  ∧ is_dir (disk (final bad)) Fixture.tempdir = true
  ∧ result failed = inr tt
  ∧ sends (events failed) = [Fixture.routing ++ [[]]]
  ∧ is_dir (disk (final failed)) Fixture.tempdir = true.
Proof.
  cbv zeta.
  rewrite (run_iteration_decode_failure Fixture.voice _ _ Fixture.request_bad_utf8
             [xff] Fixture.tempdir) by reflexivity.
  vm_compute. auto 10.
Qed.

(** C9 (the code departs from the claim): [os.remove] and [os.rmdir] sit
    in one [try].  When the artifact file was never created, [os.remove]
    raises [FileNotFoundError], the warning is printed, [os.rmdir] is not
    reached, and the directory stays; nothing propagates. *)
Theorem cleanup_skips_rmdir_without_artifact :
  let o := run_iteration Fixture.voice
             (Fixture.env Fixture.request Fixture.model_silent)
             (initial_state Fixture.disk_no_voice) in
  path_exists Fixture.disk_no_voice Fixture.tempdir = false
  ∧ result o = inr tt
  ∧ last (events o)
    = Some (EPrint (LogCleanupWarning (FileNotFoundError Fixture.artifact)))
  ∧ path_exists (disk (final o)) Fixture.artifact = false
  ∧ is_dir (disk (final o)) Fixture.tempdir = true
  ∧ cleanup Fixture.artifact Fixture.tempdir
      (initial_state (<[Fixture.tempdir := Dir]> Fixture.disk_no_voice))
    = mkOut [EPrint (LogCleanupWarning (FileNotFoundError Fixture.artifact))]
        (initial_state (<[Fixture.tempdir := Dir]> Fixture.disk_no_voice)) (inr tt).
Proof.
  cbv zeta. repeat split; vm_compute; reflexivity.
Qed.

(** *** A well-formed file system and a fresh name *)

Lemma fresh_lookup (f : FS) d : path_exists f d = false → f !! d = None.
Proof.
  unfold path_exists. destruct d; [done|]. by destruct (f !! _).
Qed.

Lemma dirname_ne (p : path) : p ≠ [] → dirname p ≠ p.
Proof.
  intros Hp Heq. apply (f_equal length) in Heq.
  unfold dirname in Heq. rewrite removelast_firstn_len, length_take in Heq.
  destruct p; [done|]. cbn in Heq. lia.
Qed.

Lemma is_dir_insert_ne (f : FS) p q n :
  q ≠ p → is_dir (<[q := n]> f) p = is_dir f p.
Proof.
  intros Hne. unfold is_dir. destruct p; [done|]. by rewrite lookup_insert_ne.
Qed.

Lemma path_exists_insert_ne (f : FS) p q n :
  q ≠ p → path_exists (<[q := n]> f) p = path_exists f p.
Proof.
  intros Hne. unfold path_exists. destruct p; [done|]. by rewrite lookup_insert_ne.
Qed.

(** Nothing lies inside a directory that does not exist. *)
Lemma wf_fresh_no_child (f : FS) d k :
  fs_wf f → path_exists f d = false → is_Some (f !! k) → ¬ child_of d k.
Proof.
  intros Hwf Hfresh [n Hk] [_ Hd].
  destruct (Hwf k n Hk) as [_ Hdir]. rewrite Hd in Hdir.
  apply is_dir_path_exists in Hdir. congruence.
Qed.

Lemma is_dir_wf_parent (f : FS) p :
  fs_wf f → is_dir f p = true → path_exists f (dirname p) = true.
Proof.
  intros Hwf Hd. destruct (decide (p = [])) as [->|Hp]; [reflexivity|].
  apply is_dir_lookup in Hd; [|done].
  destruct (Hwf p Dir Hd) as [_ H]. by apply is_dir_path_exists.
Qed.

(** The directory [mkdtemp] has just made is empty. *)
Lemma dir_empty_fresh (f : FS) d :
  fs_wf f → path_exists f d = false → dir_empty (<[d := Dir]> f) d = true.
Proof.
  intros Hwf Hfresh. apply bool_decide_eq_true. intros k n Hk.
  destruct (decide (k = d)) as [->|Hne].
  - intros [Hd Heq]. by apply (dirname_ne d).
  - rewrite lookup_insert_ne in Hk by done. eapply wf_fresh_no_child; eauto.
Qed.

Lemma is_dir_false (f : FS) p : p ≠ [] → f !! p ≠ Some Dir → is_dir f p = false.
Proof.
  intros Hp Hn. destruct (is_dir f p) eqn:E; [|done].
  apply is_dir_lookup in E; done.
Qed.

(** *** The success path *)

(** The adapter, when the model writes [b] and returns. *)
Lemma process_text_writes dv text out b f m :
  makedirs_rev (rev (dirname out)) f = inr f →
  is_dir f out = false → is_dir f (dirname out) = true → out ≠ [] →
  process_text dv (mkInfer (Some b) None) text out None (mkState f m)
  = mkOut [EPrint (LogSynthesisInput text out); EPrint (LogUsingDefaultVoice dv);
           EInfer dv text out; EPrint LogInferenceCompleted;
           EPrint (LogAudioCreated (length b))]
          (mkState (<[out := File b]> f) m) (inr status_success).
Proof.
  intros Hmk Hnd Hparent Hout. unfold process_text. munfold.
  rewrite Hmk. munfold. cbn [io_write io_raise]. munfold.
  rewrite Hnd, Hparent. munfold.
  unfold path_exists, file_content. destruct out; [done|].
  rewrite !lookup_insert_eq. reflexivity.
Qed.

(** A request served on a well-formed file system by a model that writes
    [b] and returns: the reply carries [b], and the file and the directory
    are gone again when the iteration ends. *)
Lemma run_iteration_success_releases dv e st msg payload d text b :
  fs_wf (disk st) →
  delivery e = inr msg → msg !! 3 = Some payload →
  tempdir_pick e = inr d →
  path_exists (disk st) d = false → is_dir (disk st) (dirname d) = true →
  utf8_decode payload = Some text →
  inference e = mkInfer (Some b) None →
  sends (events (run_iteration dv e st)) = [take 3 msg ++ [b]]
  ∧ final (run_iteration dv e st) = mkState (disk st) (Some msg)
  ∧ result (run_iteration dv e st) = inr tt.
Proof.
  intros Hwf Hrecv Hpay Hpick Hfresh Hparent Hdec Hio.
  destruct e as [dl pick io]. cbn in Hrecv, Hpick, Hio. subst dl pick io.
  destruct st as [f m]. cbn [disk] in *.
  pose proof (fresh_not_root f d Hfresh) as Hd.
  pose proof (fresh_lookup f d Hfresh) as Hfd.
  assert (f !! join d "response.wav" = None) as Hfa.
  { destruct (f !! join d "response.wav") eqn:E; [|done]. exfalso.
    eapply (wf_fresh_no_child f d (join d "response.wav")); eauto.
    split; [apply join_not_root | apply dirname_join]. }
  assert (join d "response.wav" ≠ d) as Hne.
  { intros Heq. apply (dirname_ne (join d "response.wav")); [apply join_not_root|].
    by rewrite dirname_join. }
  assert (<[d := Dir]> f !! join d "response.wav" = None) as Hfa'.
  { by rewrite lookup_insert_ne. }
  assert (path_exists (<[join d "response.wav" := File b]> (<[d := Dir]> f))
            (join d "response.wav") = true) as Hex.
  { rewrite path_exists_lookup by apply join_not_root.
    apply bool_decide_eq_true. rewrite lookup_insert_eq. eauto. }
  assert (is_dir (<[join d "response.wav" := File b]> (<[d := Dir]> f))
            (join d "response.wav") = false) as Hnd.
  { apply is_dir_false; [apply join_not_root | by rewrite lookup_insert_eq]. }
  assert (file_content (<[join d "response.wav" := File b]> (<[d := Dir]> f))
            (join d "response.wav") = Some b) as Hfc.
  { unfold file_content. by rewrite lookup_insert_eq. }
  pose proof (dir_empty_fresh f d Hwf Hfresh) as Hempty.
  pose proof (lookup_insert_eq f d Dir) as Hdd.
  destruct d as [|x d']; [done|].
  munfold. rewrite Hpay, Hfresh, Hparent, Hdec. munfold.
  rewrite process_text_writes; cycle 1.
  { by apply makedirs_tempdir. }
  { apply is_dir_false; [apply join_not_root | by rewrite Hfa']. }
  { rewrite dirname_join. apply is_dir_lookup; [done|]. apply lookup_insert_eq. }
  { apply join_not_root. }
  munfold. rewrite Hex, Hnd, Hfc. munfold. rewrite Hnd, Hfc. munfold.
  rewrite delete_insert_eq, (delete_id _ _ Hfa'), Hdd, Hempty. munfold.
  rewrite delete_insert_eq, (delete_id _ _ Hfd). auto.
Qed.

(** *** Well-formedness is kept *)

Lemma is_dir_insert_dir (f : FS) (d p : path) :
  is_dir f p = true → is_dir (<[d := Dir]> f) p = true.
Proof.
  intros Hp. destruct (decide (d = p)) as [->|Hne].
  - destruct p; [done|]. apply is_dir_lookup; [done|]. apply lookup_insert_eq.
  - by rewrite is_dir_insert_ne.
Qed.

Lemma is_dir_delete_ne (f : FS) (p q : path) :
  q ≠ p → is_dir (delete q f) p = is_dir f p.
Proof.
  intros Hne. unfold is_dir. destruct p; [done|]. by rewrite lookup_delete_ne.
Qed.

Lemma fs_wf_insert_dir (f : FS) (d : path) :
  fs_wf f → d ≠ [] → is_dir f (dirname d) = true → fs_wf (<[d := Dir]> f).
Proof.
  intros Hwf Hd Hparent k n Hk. destruct (decide (d = k)) as [->|Hne].
  - split; [done|]. by apply is_dir_insert_dir.
  - rewrite lookup_insert_ne in Hk by done. destruct (Hwf k n Hk) as [Hk0 Hkd].
    split; [done|]. by apply is_dir_insert_dir.
Qed.

Lemma fs_wf_insert_file (f : FS) (p : path) (b : bytes) :
  fs_wf f → p ≠ [] → is_dir f (dirname p) = true → is_dir f p = false →
  fs_wf (<[p := File b]> f).
Proof.
  intros Hwf Hp Hparent Hnd k n Hk.
  assert (∀ q, is_dir f q = true → is_dir (<[p := File b]> f) q = true) as Hkeep.
  { intros q Hq. rewrite is_dir_insert_ne; [done|]. intros ->. congruence. }
  destruct (decide (p = k)) as [->|Hne].
  - split; [done|]. by apply Hkeep.
  - rewrite lookup_insert_ne in Hk by done. destruct (Hwf k n Hk) as [Hk0 Hkd].
    split; [done|]. by apply Hkeep.
Qed.

(** Deleting an entry that has nothing inside it. *)
Lemma fs_wf_delete (f : FS) (p : path) :
  fs_wf f → (∀ k, is_Some (f !! k) → ¬ child_of p k) → fs_wf (delete p f).
Proof.
  intros Hwf Hnone k n Hk.
  destruct (decide (p = k)) as [->|Hne]; [by rewrite lookup_delete_eq in Hk|].
  rewrite lookup_delete_ne in Hk by done. destruct (Hwf k n Hk) as [Hk0 Hkd].
  split; [done|]. rewrite is_dir_delete_ne; [done|].
  intros ->. apply (Hnone k); [eauto | by split].
Qed.

Lemma fs_wf_delete_file (f : FS) (p : path) (b : bytes) :
  fs_wf f → file_content f p = Some b → fs_wf (delete p f).
Proof.
  intros Hwf Hfile. apply fs_wf_delete; [done|]. intros k [n Hk] [Hk0 Hkd].
  destruct (Hwf k n Hk) as [_ Hdir]. rewrite Hkd in Hdir.
  destruct (decide (p = [])) as [->|Hp].
  - unfold file_content in Hfile. destruct (f !! []) as [[]|] eqn:E; [|done..].
    by destruct (Hwf [] _ E).
  - rewrite file_content_is_dir in Hfile by done. discriminate.
Qed.

Lemma fs_wf_delete_empty_dir (f : FS) (d : path) :
  fs_wf f → dir_empty f d = true → fs_wf (delete d f).
Proof.
  intros Hwf Hempty. apply fs_wf_delete; [done|]. intros k [n Hk].
  apply bool_decide_eq_true in Hempty. exact (Hempty k n Hk).
Qed.

Lemma makedirs_rev_wf (rname : list string) (f f1 : FS) :
  fs_wf f → makedirs_rev rname f = inr f1 → fs_wf f1.
Proof.
  revert f f1. induction rname as [|t rhead IH]; intros f f1 Hwf; cbn [makedirs_rev].
  - by intros [= <-].
  - destruct (path_exists f (rev rhead)).
    + destruct (f !! rev (t :: rhead)) as [[]|]; [done| by intros [= <-] |].
      destruct (is_dir f (rev rhead)) eqn:Hd; [|done]. intros [= <-].
      apply fs_wf_insert_dir; [done | by destruct (rev rhead) |].
      cbn [rev]. unfold dirname. by rewrite removelast_last.
    + destruct (makedirs_rev rhead f) as [|f0] eqn:Hrec; [done|].
      specialize (IH f f0 Hwf Hrec).
      destruct (f0 !! rev (t :: rhead)) as [[]|]; [done| by intros [= <-] |].
      destruct (is_dir f0 (rev rhead)) eqn:Hd; [|done]. intros [= <-].
      apply fs_wf_insert_dir; [done | by destruct (rev rhead) |].
      cbn [rev]. unfold dirname. by rewrite removelast_last.
Qed.

Lemma process_text_wf dv io text out v st :
  fs_wf (disk st) → fs_wf (disk (final (process_text dv io text out v st))).
Proof.
  destruct st as [f m]. cbn [disk]. intros Hwf.
  unfold process_text. munfold. mcases.
  all: try match goal with
           | H : makedirs_rev _ _ = inr _ |- _ =>
               pose proof (makedirs_rev_wf _ _ _ Hwf H)
           end.
  all: try assumption.
  all: apply fs_wf_insert_file; try assumption.
  all: match goal with H : is_dir _ ?p = false |- ?p ≠ [] => by intros -> end.
Qed.

(** One iteration of the loop, and so the whole run, keeps the file system
    well-formed, also on the paths that leave a directory behind. *)
Lemma run_iteration_wf dv e st :
  fs_wf (disk st) → fs_wf (disk (final (run_iteration dv e st))).
Proof.
  destruct e as [dl pick io]. destruct st as [f m]. cbn [disk]. intros Hwf. munfold.
  repeat first
    [ match goal with
      | |- context [process_text ?a ?b ?c ?d ?v (mkState ?g ?mm)] =>
          let Hg := fresh "Hg" in
          assert (fs_wf g) as Hg
            by (apply fs_wf_insert_dir; [assumption | by eapply fresh_not_root | assumption]);
          pose proof (process_text_wf a b c d v (mkState g mm) Hg);
          destruct (process_text a b c d v (mkState g mm)) as [evs [f' m'] r];
          cbn [disk final] in *
      end
    | mcase; munfold ];
  try assumption.
  all: try (apply fs_wf_insert_dir;
            [assumption | by eapply fresh_not_root | assumption]).
  all: try (match goal with H : file_content _ _ = Some _ |- _ =>
              apply fs_wf_delete_file in H; [|assumption] end).
  all: try assumption.
  all: by apply fs_wf_delete_empty_dir.
Qed.

Lemma run_wf dv envs st :
  fs_wf (disk st) → fs_wf (disk (final (run dv envs st))).
Proof.
  revert st. induction envs as [|e envs IH]; intros st Hwf; [exact Hwf|].
  rewrite run_cons. pose proof (run_iteration_wf dv e st Hwf) as He.
  destruct (run_iteration dv e st) as [evs st1 [ex|[]]]; cbn [final] in *; [done|].
  specialize (IH st1 He). by destruct (run dv envs st1).
Qed.

(** *** The warm-up *)

(** The adapter writing to a regular file that is already there, in a
    directory that needs no making: whatever the model does, the file is
    still a regular file afterwards, nothing else has changed, and the
    model has been called once. *)
Lemma process_text_on_existing_file (dv : path) (io : InferOutcome) (text : str)
    (p : path) (v : option path) (f : FS) (c : bytes) (m : option (list bytes)) :
  p ≠ [] →
  makedirs_rev (rev (dirname p)) (<[p := File c]> f) = inr (<[p := File c]> f) →
  is_dir (<[p := File c]> f) (dirname p) = true →
  ∃ evs c' status,
    process_text dv io text p v (mkState (<[p := File c]> f) m)
    = mkOut evs (mkState (<[p := File c']> f) m) (inr status)
    ∧ sends evs = [] ∧ warmup_starts evs = 0
    ∧ infer_calls evs = [(effective_voice dv v, text, p)].
Proof.
  intros Hp Hmk Hparent.
  assert (is_dir (<[p := File c]> f) p = false) as Hnd.
  { apply is_dir_false; [done | by rewrite lookup_insert_eq]. }
  unfold process_text. destruct v as [v|]; munfold.
  all: rewrite Hmk; munfold.
  all: destruct (io_write io) as [b|]; munfold; rewrite ?Hnd, ?Hparent; munfold.
  all: rewrite ?insert_insert_eq.
  all: mcases; eexists _, _, _; (split; [reflexivity|]); repeat split; reflexivity.
Qed.

Lemma run_iteration_no_warmup dv e st :
  warmup_starts (events (run_iteration dv e st)) = 0.
Proof.
  destruct e as [dl pick io]. destruct st as [f m]. munfold.
  repeat first
    [ match goal with
      | |- context [process_text ?a ?b ?c ?d ?v ?s] =>
          destruct (process_text_total a b c d v s) as (status & Hres & _ & _ & Hw);
          destruct (process_text a b c d v s) as [evs [f' m'] r];
          cbn [result events] in Hres, Hw; subst r
      end
    | mcase; munfold ];
  evlog; rewrite ?Hw; reflexivity.
Qed.

Lemma run_no_warmup dv envs st : warmup_starts (events (run dv envs st)) = 0.
Proof.
  revert st. induction envs as [|e envs IH]; intros st; [reflexivity|].
  rewrite run_cons. pose proof (run_iteration_no_warmup dv e st) as He.
  destruct (run_iteration dv e st) as [evs st1 [ex|[]]]; cbn [events] in *; [done|].
  specialize (IH st1). destruct (run dv envs st1) as [evs' st2 r]. cbn [events] in *.
  rewrite warmup_starts_app. lia.
Qed.

(** The warm-up from the state in which the process starts, when the
    temporary file can be made: it returns, leaves the file system as it
    found it, sends nothing, and calls the model once if the default voice
    file exists and not at all if it does not. *)
Lemma warm_up_models_spec (dv : path) (w : WarmEnv) (f : FS) (p : path) :
  fs_wf f → tempfile_pick w = inr p →
  path_exists f p = false → is_dir f (dirname p) = true →
  ∃ evs,
    warm_up_models dv w (initial_state f)
    = mkOut (EPrint LogWarmupStart :: evs) (initial_state f) (inr tt)
    ∧ sends evs = [] ∧ warmup_starts evs = 0
    ∧ (path_exists f dv = true → infer_calls evs = [(dv, dummy_text, p)])
    ∧ (path_exists f dv = false → dv ≠ p → evs = [EPrint LogWarmupSkipped]).
Proof.
  intros Hwf Hpick Hfresh Hparent. destruct w as [pick io]. cbn in Hpick. subst pick.
  pose proof (fresh_not_root f p Hfresh) as Hp.
  pose proof (fresh_lookup f p Hfresh) as Hfp.
  assert (p ≠ dirname p) as Hpd by (intros Heq; by apply (dirname_ne p)).
  assert (is_dir (<[p := File []]> f) (dirname p) = true) as Hparent'.
  { by rewrite is_dir_insert_ne. }
  assert (makedirs_rev (rev (dirname p)) (<[p := File []]> f) = inr (<[p := File []]> f))
    as Hmk.
  { apply makedirs_noop; [done|]. by apply path_exists_insert, is_dir_wf_parent. }
  unfold initial_state. munfold. rewrite Hfresh, Hparent. munfold.
  destruct (path_exists (<[p := File []]> f) dv) eqn:Hdv; munfold.
  - destruct (process_text_on_existing_file dv io dummy_text p (Some dv) f [] None
                Hp Hmk Hparent') as (evs & c' & status & -> & Hs & Hw & Hcalls).
    munfold.
    rewrite (is_dir_false (<[p := File c']> f) p Hp) by (by rewrite lookup_insert_eq).
    unfold file_content. rewrite lookup_insert_eq. munfold.
    rewrite delete_insert_eq, (delete_id _ _ Hfp).
    eexists. split; [reflexivity|]. evlog. rewrite Hs, Hw, Hcalls.
    split; [reflexivity|]. split; [reflexivity|].
    split; [done|]. intros Hno Hne. rewrite path_exists_insert_ne in Hdv by done.
    congruence.
  - rewrite (is_dir_false (<[p := File []]> f) p Hp) by (by rewrite lookup_insert_eq).
    unfold file_content. rewrite lookup_insert_eq. munfold.
    rewrite delete_insert_eq, (delete_id _ _ Hfp).
    eexists. split; [reflexivity|]. evlog. split; [reflexivity|]. split; [reflexivity|].
    split; [|done]. intros Hyes. apply (path_exists_insert f dv p (File [])) in Hyes.
    congruence.
Qed.




(* ===================================================================== *)
(** * Further properties of the loop, the adapter and the clean-up *)
(* ===================================================================== *)

(** ** The loop over several requests *)

(** X1: in a run in which every receive delivers an envelope, no
    exception leaves the loop, there are as many replies as requests, and
    the replies come in the order of the requests, each made of the first
    three frames of its own request and one payload frame. *)
Theorem run_serves_in_order dv envs st :
  Forall (λ e, ∃ msg, delivery e = inr msg) envs →
  result (run dv envs st) = inr tt
  ∧ length (sends (events (run dv envs st))) = length envs
  ∧ Forall2 (λ e reply, ∃ msg data, delivery e = inr msg ∧ reply = take 3 msg ++ [data])
            envs (sends (events (run dv envs st))).
Proof.
  intros Hall. destruct (run_replies_in_order dv envs st Hall) as [Hres Hord].
  split; [exact Hres|]. split; [|exact Hord].
  symmetry. exact (Forall2_length _ _ _ Hord).
Qed.

Lemma run_serves_in_order_witness :
  Forall (λ e, ∃ msg, delivery e = inr msg)
    [Fixture.env Fixture.request Fixture.model_ok;
     Fixture.env Fixture.request_bad_utf8 Fixture.model_silent]
  ∧ length (sends (events (run Fixture.voice
              [Fixture.env Fixture.request Fixture.model_ok;
               Fixture.env Fixture.request_bad_utf8 Fixture.model_silent]
              (initial_state Fixture.disk_voice)))) = 2.
Proof.
  assert (Forall (λ e, ∃ msg, delivery e = inr msg)
            [Fixture.env Fixture.request Fixture.model_ok;
             Fixture.env Fixture.request_bad_utf8 Fixture.model_silent]) as Hall.
  { repeat constructor; eexists; reflexivity. }
  split; [exact Hall|].
  exact (proj1 (proj2 (run_serves_in_order Fixture.voice _
                         (initial_state Fixture.disk_voice) Hall))).
Defined.

(** With [message] bound, an iteration ends without an exception and with
    exactly one send, whatever the environment does, a failing receive
    included; and [message] stays bound. *)
Lemma run_iteration_bound dv e st prev :
  message st = Some prev →
  ∃ reply m,
    result (run_iteration dv e st) = inr tt
    ∧ sends (events (run_iteration dv e st)) = [reply]
    ∧ message (final (run_iteration dv e st)) = Some m.
Proof.
  intros Hprev. destruct (delivery e) as [err|msg] eqn:Hrecv.
  - destruct e as [dl pick io]. cbn in Hrecv. subst dl.
    destruct st as [f m]. cbn in Hprev. subst m.
    eexists _, _. repeat split; reflexivity.
  - destruct (run_iteration_received dv e st msg Hrecv) as (data & Hres & Hs & Hm).
    eauto.
Qed.

Lemma run_bound dv envs st prev :
  message st = Some prev →
  result (run dv envs st) = inr tt
  ∧ length (sends (events (run dv envs st))) = length envs.
Proof.
  revert st prev. induction envs as [|e envs IH]; intros st prev Hprev.
  - split; reflexivity.
  - rewrite run_cons.
    destruct (run_iteration_bound dv e st prev Hprev) as (reply & m & Hres & Hs & Hm).
    destruct (run_iteration dv e st) as [evs st1 r]. cbn [result events final] in *.
    subst r. destruct (IH st1 m Hm) as [IHres IHlen].
    destruct (run dv envs st1) as [evs' st2 r']. cbn [result events] in *.
    split; [exact IHres|]. rewrite sends_app, Hs. cbn. by rewrite IHlen.
Qed.

(** X2: once one envelope has been received, nothing the environment does
    ends the loop: whatever later receives, [mkdtemp] and the model do
    (failing receives included), [run] is still running after every move,
    and it has sent exactly one message per iteration. *)
Theorem run_survives_after_first_envelope dv e envs st msg :
  delivery e = inr msg →
  result (run dv (e :: envs) st) = inr tt
  ∧ length (sends (events (run dv (e :: envs) st))) = S (length envs).
Proof.
  intros Hrecv. rewrite run_cons.
  destruct (run_iteration_received dv e st msg Hrecv) as (data & Hres & Hs & Hm).
  destruct (run_iteration dv e st) as [evs st1 r]. cbn [result events final] in *.
  subst r. destruct (run_bound dv envs st1 msg Hm) as [Hr Hlen].
  destruct (run dv envs st1) as [evs' st2 r']. cbn [result events] in *.
  split; [exact Hr|]. rewrite sends_app, Hs. cbn. by rewrite Hlen.
Qed.

Lemma run_survives_after_first_envelope_witness :
  delivery (Fixture.env Fixture.request Fixture.model_ok) = inr Fixture.request
  ∧ result (run Fixture.voice
              [Fixture.env Fixture.request Fixture.model_ok;
               mkEnv (inl (ZMQError "Interrupted system call")) (inr Fixture.tempdir)
                     Fixture.model_ok;
               Fixture.env Fixture.request_three Fixture.model_raises]
              (initial_state Fixture.disk_voice)) = inr tt.
Proof.
  split; [reflexivity|].
  exact (proj1 (run_survives_after_first_envelope Fixture.voice
                  (Fixture.env Fixture.request Fixture.model_ok) _
                  (initial_state Fixture.disk_voice) Fixture.request eq_refl)).
Defined.

(** ** What the adapter and an iteration do to the file system *)

Lemma makedirs_rev_keeps (rname : list string) (f f1 : FS) (q : path) (n : node) :
  makedirs_rev rname f = inr f1 → f !! q = Some n → f1 !! q = Some n.
Proof.
  revert f f1. induction rname as [|t rhead IH]; intros f f1; cbn [makedirs_rev].
  - by intros [= <-].
  - intros Hmk Hq.
    assert (∀ f0 : FS, f0 !! q = Some n →
              match f0 !! rev (t :: rhead) with
              | Some Dir => inr f0
              | Some (File _) => inl (FileExistsError (rev (t :: rhead)))
              | None => if is_dir f0 (rev rhead)
                        then inr (<[rev (t :: rhead) := Dir]> f0)
                        else inl (NotADirectoryError (rev (t :: rhead)))
              end = inr f1 → f1 !! q = Some n) as Hstep.
    { intros f0 Hq0. destruct (f0 !! rev (t :: rhead)) as [[]|] eqn:E;
        [done | by intros [= <-] |].
      destruct (is_dir f0 (rev rhead)); [|done]. intros [= <-].
      rewrite lookup_insert_ne; [done|]. intros <-.
      pose proof (eq_trans (eq_sym E) Hq0). discriminate. }
    destruct (path_exists f (rev rhead)).
    + by apply (Hstep f).
    + destruct (makedirs_rev rhead f) as [|f0] eqn:Hrec; [done|].
      apply (Hstep f0); [|done]. by apply (IH f f0).
Qed.

(** X3: [process_text] sends nothing on the socket, leaves [message]
    alone, and neither removes nor changes any entry of the file system
    other than its output file, whatever the model does. *)
Theorem process_text_keeps_other_entries dv io text out v st :
  sends (events (process_text dv io text out v st)) = []
  ∧ message (final (process_text dv io text out v st)) = message st
  ∧ ∀ (q : path) (n : node),
      q ≠ out → disk st !! q = Some n →
      disk (final (process_text dv io text out v st)) !! q = Some n.
Proof.
  destruct (process_text_total dv io text out v st) as (s & _ & Hm & Hs & _).
  split; [exact Hs|]. split; [exact Hm|].
  intros q n Hne Hq. destruct st as [f m]. cbn [disk] in Hq.
  unfold process_text. munfold. mcases; try assumption.
  all: try match goal with
           | H : makedirs_rev _ _ = inr _ |- _ =>
               pose proof (makedirs_rev_keeps _ _ _ q n H Hq)
           end.
  all: try assumption.
  all: by rewrite lookup_insert_ne.
Qed.

(** Where the output directory needs no making, the adapter leaves the
    file system as it was, or with the output file written into it. *)
Lemma process_text_disk_cases (dv : path) (io : InferOutcome) (text : str)
    (out : path) (v : option path) (f : FS) (m : option (list bytes)) :
  makedirs_rev (rev (dirname out)) f = inr f →
  disk (final (process_text dv io text out v (mkState f m))) = f
  ∨ ∃ b, is_dir f out = false
         ∧ disk (final (process_text dv io text out v (mkState f m)))
           = <[out := File b]> f.
Proof.
  intros Hmk. unfold process_text. destruct v; munfold; rewrite Hmk; munfold.
  all: mcases; eauto.
Qed.

(** A request that gets as far as the synthesis call, on a well-formed
    file system: when the iteration ends, the file system is as it was
    before the request, or it has the request's directory, empty, in
    addition. *)
Lemma run_iteration_disk_reached dv e st msg payload d text :
  fs_wf (disk st) →
  delivery e = inr msg → msg !! 3 = Some payload →
  tempdir_pick e = inr d →
  path_exists (disk st) d = false → is_dir (disk st) (dirname d) = true →
  utf8_decode payload = Some text →
  let synth := process_text dv (inference e) text (join d "response.wav") None
                 (mkState (<[d := Dir]> (disk st)) (Some msg)) in
  (is_Some (file_content (disk (final synth)) (join d "response.wav"))
   ∧ disk (final (run_iteration dv e st)) = disk st)
  ∨ (file_content (disk (final synth)) (join d "response.wav") = None
     ∧ disk (final (run_iteration dv e st)) = <[d := Dir]> (disk st)).
Proof.
  intros Hwf Hrecv Hpay Hpick Hfresh Hparent Hdec.
  destruct e as [dl pick io]. cbn in Hrecv, Hpick. subst dl pick.
  destruct st as [f m]. cbn [disk inference] in *.
  pose proof (fresh_not_root f d Hfresh) as Hd.
  pose proof (fresh_lookup f d Hfresh) as Hfd.
  assert (f !! join d "response.wav" = None) as Hfa.
  { destruct (f !! join d "response.wav") eqn:E; [|done]. exfalso.
    eapply (wf_fresh_no_child f d (join d "response.wav")); eauto.
    split; [apply join_not_root | apply dirname_join]. }
  assert (join d "response.wav" ≠ d) as Hne.
  { intros Heq. apply (dirname_ne (join d "response.wav")); [apply join_not_root|].
    by rewrite dirname_join. }
  assert (<[d := Dir]> f !! join d "response.wav" = None) as Hfa'.
  { by rewrite lookup_insert_ne. }
  pose proof (dir_empty_fresh f d Hwf Hfresh) as Hempty.
  pose proof (lookup_insert_eq f d Dir) as Hdd.
  pose proof (process_text_disk_cases dv io text (join d "response.wav") None
                (<[d := Dir]> f) (Some msg) (makedirs_tempdir f d Hfresh Hparent))
    as Hcases.
  pose proof (process_text_total dv io text (join d "response.wav") None
                (mkState (<[d := Dir]> f) (Some msg))) as (status & Hres & Hmsg & _).
  destruct d as [|x d']; [done|].
  munfold. rewrite Hpay, Hfresh, Hparent, Hdec. munfold.
  destruct (process_text dv io text (join (x :: d') "response.wav") None
              (mkState (<[x :: d' := Dir]> f) (Some msg))) as [evs [f' m'] r].
  cbn [result final message disk] in Hres, Hmsg, Hcases. subst r m'. munfold.
  destruct Hcases as [-> | (b & Hnd & ->)].
  - assert (path_exists (<[x :: d' := Dir]> f) (join (x :: d') "response.wav") = false)
      as ->.
    { rewrite path_exists_lookup by apply join_not_root.
      apply bool_decide_eq_false. rewrite Hfa'. by intros [? ?]. }
    munfold.
    rewrite (is_dir_false _ (join (x :: d') "response.wav"))
      by (apply join_not_root || by rewrite Hfa').
    unfold file_content. rewrite Hfa'. munfold. by right.
  - assert (path_exists (<[join (x :: d') "response.wav" := File b]> (<[x :: d' := Dir]> f))
              (join (x :: d') "response.wav") = true) as ->.
    { rewrite path_exists_lookup by apply join_not_root.
      apply bool_decide_eq_true. rewrite lookup_insert_eq. eauto. }
    assert (is_dir (<[join (x :: d') "response.wav" := File b]> (<[x :: d' := Dir]> f))
              (join (x :: d') "response.wav") = false) as Hnd'.
    { apply is_dir_false; [apply join_not_root | by rewrite lookup_insert_eq]. }
    assert (file_content (<[join (x :: d') "response.wav" := File b]> (<[x :: d' := Dir]> f))
              (join (x :: d') "response.wav") = Some b) as Hfc.
    { unfold file_content. by rewrite lookup_insert_eq. }
    munfold. rewrite Hnd', Hfc. munfold. rewrite Hnd', Hfc. munfold.
    rewrite delete_insert_eq, (delete_id _ _ Hfa'), Hdd, Hempty. munfold.
    rewrite delete_insert_eq, (delete_id _ _ Hfd). left. split; [eauto | done].
Qed.

(** X4: on a well-formed file system, an iteration of the loop leaves the
    file system exactly as it found it, or with one entry more: the
    directory [mkdtemp] made for the request, under a name that was free.
    So no entry that was there before the request is removed or changed,
    and the artifact file never outlives the iteration. *)
Theorem run_iteration_disk_effect dv e st :
  fs_wf (disk st) →
  (disk (final (run_iteration dv e st)) = disk st
   ∨ ∃ d, tempdir_pick e = inr d ∧ disk st !! d = None
          ∧ disk (final (run_iteration dv e st)) = <[d := Dir]> (disk st))
  ∧ (∀ (q : path) (n : node),
       disk st !! q = Some n → disk (final (run_iteration dv e st)) !! q = Some n).
Proof.
  intros Hwf.
  assert (disk (final (run_iteration dv e st)) = disk st
          ∨ ∃ d, tempdir_pick e = inr d ∧ disk st !! d = None
                 ∧ disk (final (run_iteration dv e st)) = <[d := Dir]> (disk st)) as H.
  { destruct (delivery e) as [err|msg] eqn:Hrecv.
    { left. destruct e as [dl pick io]. cbn in Hrecv. subst dl.
      destruct st as [f [prev|]]; reflexivity. }
    destruct (msg !! 3) as [payload|] eqn:Hpay; cycle 1.
    { left. destruct e as [dl pick io]. cbn in Hrecv. subst dl.
      destruct st as [f m]. munfold. rewrite Hpay. reflexivity. }
    destruct (tempdir_pick e) as [ex|d] eqn:Hpick.
    { left. destruct e as [dl pick io]. cbn in Hrecv, Hpick. subst dl pick.
      destruct st as [f m]. munfold. rewrite Hpay. reflexivity. }
    destruct (path_exists (disk st) d) eqn:Hfresh.
    { left. destruct e as [dl pick io]. cbn in Hrecv, Hpick. subst dl pick.
      destruct st as [f m]. cbn [disk] in *. munfold. rewrite Hpay, Hfresh. reflexivity. }
    destruct (is_dir (disk st) (dirname d)) eqn:Hparent; cycle 1.
    { left. destruct e as [dl pick io]. cbn in Hrecv, Hpick. subst dl pick.
      destruct st as [f m]. cbn [disk] in *. munfold.
      rewrite Hpay, Hfresh, Hparent. reflexivity. }
    destruct (utf8_decode payload) as [text|] eqn:Hdec.
    - destruct (run_iteration_disk_reached dv e st msg payload d text)
        as [[_ Hsame] | [_ Hdir]]; try assumption; [by left | right].
      exists d. split; [reflexivity|]. split; [by apply fresh_lookup | exact Hdir].
    - right. exists d. split; [reflexivity|]. split; [by apply fresh_lookup|].
      by rewrite (run_iteration_decode_failure dv e st msg payload d). }
  split; [exact H|]. intros q n Hq.
  destruct H as [-> | (d & _ & Hd & ->)]; [exact Hq|].
  rewrite lookup_insert_ne; [exact Hq|]. intros <-. congruence.
Qed.

Lemma run_iteration_disk_effect_witness :
  fs_wf Fixture.disk_voice
  ∧ disk (final (run_iteration Fixture.voice
                   (Fixture.env Fixture.request Fixture.model_raises)
                   (initial_state Fixture.disk_voice)))
      !! Fixture.voice = Some (File [x52; x49; x46; x46]).
Proof.
  assert (fs_wf Fixture.disk_voice) as Hwf.
  { apply (bool_decide_unpack _). vm_compute. exact I. }
  split; [exact Hwf|].
  apply (proj2 (run_iteration_disk_effect Fixture.voice
                  (Fixture.env Fixture.request Fixture.model_raises)
                  (initial_state Fixture.disk_voice) Hwf)).
  reflexivity.
Defined.

(** X10: for a request that reaches the synthesis call on a well-formed
    file system, the workspace is released exactly when the call left an
    artifact file.  If it did, the reply carries the file's bytes and the
    file and the directory are both gone when the iteration ends, so the
    file system is as before the request.  If it did not, the reply is
    empty and the directory is left behind. *)
Theorem workspace_released_iff_artifact dv e st msg payload d text :
  fs_wf (disk st) →
  delivery e = inr msg → msg !! 3 = Some payload →
  tempdir_pick e = inr d →
  path_exists (disk st) d = false → is_dir (disk st) (dirname d) = true →
  utf8_decode payload = Some text →
  match file_content
          (disk (final (process_text dv (inference e) text (join d "response.wav") None
                          (mkState (<[d := Dir]> (disk st)) (Some msg)))))
          (join d "response.wav") with
  | Some b =>
      sends (events (run_iteration dv e st)) = [take 3 msg ++ [b]]
      ∧ disk (final (run_iteration dv e st)) = disk st
  | None =>
      sends (events (run_iteration dv e st)) = [take 3 msg ++ [[]]]
      ∧ disk (final (run_iteration dv e st)) = <[d := Dir]> (disk st)
      ∧ disk (final (run_iteration dv e st)) ≠ disk st
  end.
Proof.
  intros Hwf Hrecv Hpay Hpick Hfresh Hparent Hdec.
  pose proof (run_iteration_reply_reached dv e st msg payload d text _
                Hrecv Hpay Hpick Hfresh Hparent Hdec eq_refl) as Hreply.
  pose proof (run_iteration_disk_reached dv e st msg payload d text
                Hwf Hrecv Hpay Hpick Hfresh Hparent Hdec) as Hdisk.
  cbv zeta in Hdisk. unfold artifact_or_sentinel in Hreply.
  destruct (file_content _ _) as [b|].
  - split; [exact Hreply|]. destruct Hdisk as [[_ H] | [? _]]; [exact H | discriminate].
  - split; [exact Hreply|]. destruct Hdisk as [[[? ?] _] | [_ H]]; [discriminate|].
    split; [exact H|]. rewrite H. intros Heq.
    pose proof (lookup_insert_eq (disk st) d Dir) as Hin. rewrite Heq in Hin.
    rewrite (fresh_lookup _ _ Hfresh) in Hin. discriminate.
Qed.

Lemma workspace_released_iff_artifact_witness :
  fs_wf Fixture.disk_voice
  ∧ delivery (Fixture.env Fixture.request Fixture.model_ok) = inr Fixture.request
  ∧ Fixture.request !! 3 = Some Fixture.ok
  ∧ tempdir_pick (Fixture.env Fixture.request Fixture.model_ok) = inr Fixture.tempdir
  ∧ path_exists Fixture.disk_voice Fixture.tempdir = false
  ∧ is_dir Fixture.disk_voice (dirname Fixture.tempdir) = true
  ∧ utf8_decode Fixture.ok = Some [111%N; 107%N]
  ∧ sends (events Fixture.served) = [take 3 Fixture.request ++ [Fixture.audio]]
  ∧ disk (final Fixture.served) = Fixture.disk_voice.
Proof.
  assert (fs_wf Fixture.disk_voice) as Hwf.
  { apply (bool_decide_unpack _). vm_compute. exact I. }
  split; [exact Hwf|]. do 6 (split; [reflexivity|]).
  exact (workspace_released_iff_artifact Fixture.voice
           (Fixture.env Fixture.request Fixture.model_ok)
           (initial_state Fixture.disk_voice) Fixture.request Fixture.ok
           Fixture.tempdir [111%N; 107%N] Hwf eq_refl eq_refl eq_refl eq_refl
           eq_refl eq_refl).
Defined.

(** ** The model call *)

(** X5: [process_text] calls the model exactly once when the directory of
    the output file exists or can be made, with the voice file the caller
    gave (the default one only when the caller gave none), the caller's
    text and the caller's output path; when [os.makedirs] raises, the model
    is not called at all. *)
Theorem process_text_calls_model_once dv io text out v st :
  infer_calls (events (process_text dv io text out v st))
  = match result (os_makedirs (dirname out) st) with
    | inr _ => [(match v with Some voice => voice | None => dv end, text, out)]
    | inl _ => []
    end.
Proof.
  destruct (result (os_makedirs (dirname out) st)) as [ex|[]] eqn:Hmk.
  - by apply (process_text_no_call dv io text out v st ex).
  - rewrite (process_text_infer_calls dv io text out v st Hmk). by destruct v.
Qed.

Lemma process_text_calls_at_most_once dv io text out v st :
  (length (infer_calls (events (process_text dv io text out v st))) ≤ 1)%nat.
Proof.
  destruct (result (os_makedirs (dirname out) st)) as [ex|[]] eqn:Hmk.
  - rewrite (process_text_no_call dv io text out v st ex Hmk). cbn. lia.
  - rewrite (process_text_infer_calls dv io text out v st Hmk). cbn. lia.
Qed.

(** X6: one iteration of the loop calls the model at most once, and not at
    all unless an envelope was received whose frame 3 is well-formed
    UTF-8: a failing receive, a short envelope or an undecodable payload
    never reaches the model. *)
Theorem run_iteration_calls_model_at_most_once dv e st :
  (length (infer_calls (events (run_iteration dv e st))) ≤ 1)%nat
  ∧ ((¬ ∃ msg payload text,
          delivery e = inr msg ∧ msg !! 3 = Some payload
          ∧ utf8_decode payload = Some text) →
     infer_calls (events (run_iteration dv e st)) = []).
Proof.
  destruct e as [dl pick io]. destruct st as [f m]. cbn [delivery].
  munfold.
  repeat first
    [ match goal with
      | |- context [process_text ?a ?b ?c ?d ?v ?s] =>
          pose proof (process_text_calls_at_most_once a b c d v s) as Hcalls;
          destruct (process_text_total a b c d v s) as (status & Hres & _);
          destruct (process_text a b c d v s) as [evs [f' m'] r];
          cbn [result events] in Hres, Hcalls; subst r
      end
    | mcase; munfold ].
  all: evlog; split; [try (cbn; lia) | try reflexivity].
  all: try (rewrite ?app_nil_r; exact Hcalls).
  all: intros Hnone; exfalso; apply Hnone; subst; eauto 10.
Qed.

(** ** The clean-up *)

(** X7: the clean-up after the reply never raises, sends nothing and
    leaves [message] alone.  When there is no regular file at the artifact
    path, it changes nothing and prints one warning (the directory is not
    removed, even if it is empty).  When there is one, the file is
    removed, and the directory is removed as well exactly when it is a
    directory and empty once the file is gone; otherwise it stays and one
    warning is printed. *)
Theorem cleanup_effect (temp_audio_path temp_dir : path) (st : State) :
  ∃ evs f',
    cleanup temp_audio_path temp_dir st = mkOut evs (mkState f' (message st)) (inr tt)
    ∧ sends evs = []
    ∧ ((is_dir (disk st) temp_audio_path = true
        ∨ file_content (disk st) temp_audio_path = None) →
       f' = disk st ∧ ∃ ex, evs = [EPrint (LogCleanupWarning ex)])
    ∧ (is_dir (disk st) temp_audio_path = false →
       is_Some (file_content (disk st) temp_audio_path) →
       let f1 := delete temp_audio_path (disk st) in
       if bool_decide (temp_dir ≠ []) && is_dir f1 temp_dir && dir_empty f1 temp_dir
       then f' = delete temp_dir f1 ∧ evs = []
       else f' = f1 ∧ ∃ ex, evs = [EPrint (LogCleanupWarning ex)]).
Proof.
  destruct st as [f m]. cbn [disk message]. munfold.
  destruct (is_dir f temp_audio_path) eqn:Hd; munfold.
  { eexists _, _. split; [reflexivity|]. split; [reflexivity|].
    split; [eauto | discriminate]. }
  destruct (file_content f temp_audio_path) as [b|] eqn:Hfc; munfold; cycle 1.
  { eexists _, _. split; [reflexivity|]. split; [reflexivity|].
    split; [eauto | by intros _ [? ?]]. }
  destruct temp_dir as [|x d'].
  { eexists _, _. split; [reflexivity|]. split; [reflexivity|].
    split; [by intros [?|?] | intros _ _; cbn; eauto]. }
  munfold.
  rewrite (bool_decide_eq_true_2 (x :: d' ≠ [])) by done. cbn [andb].
  unfold is_dir at 1.
  destruct (delete temp_audio_path f !! (x :: d')) as [[c|]|] eqn:Hdir; munfold.
  - eexists _, _. split; [reflexivity|]. split; [reflexivity|].
    split; [by intros [?|?] | intros _ _; cbn; eauto].
  - cbn [andb].
    destruct (dir_empty (delete temp_audio_path f) (x :: d')); munfold.
    + eexists _, _. split; [reflexivity|]. split; [reflexivity|].
      split; [by intros [?|?] | by intros _ _].
    + eexists _, _. split; [reflexivity|]. split; [reflexivity|].
      split; [by intros [?|?] | intros _ _; eauto].
  - eexists _, _. split; [reflexivity|]. split; [reflexivity|].
    split; [by intros [?|?] | intros _ _; cbn; eauto].
Qed.

(** ** The warm-up and the start of the process *)

(** X8: [NamedTemporaryFile] is entered outside the [try] of the warm-up.
    When it raises, the exception leaves [warm_up_models] and with it
    [main]: the registration has been sent, the model is not called, and
    the receive loop is never entered. *)
Theorem warm_up_tempfile_failure_escapes dv w envs st ex :
  result (NamedTemporaryFile (tempfile_pick w) st) = inl ex →
  warm_up_models dv w st = mkOut [EPrint LogWarmupStart] st (inl ex)
  ∧ main dv w envs st
    = mkOut [ESend [String.list_byte_of_string service_name]; EPrint LogWarmupStart]
            st (inl ex).
Proof.
  intros Hfail.
  assert (warm_up_models dv w st = mkOut [EPrint LogWarmupStart] st (inl ex)) as Hwarm.
  { destruct w as [pick io]. destruct st as [f m]. revert Hfail. munfold.
    mcases; intros; simplify_eq; reflexivity. }
  split; [exact Hwarm|].
  unfold main, init_tail, bind at 1 2. cbn [send_multipart emit]. by rewrite Hwarm.
Qed.

Lemma warm_up_tempfile_failure_escapes_witness :
  result (NamedTemporaryFile
            (tempfile_pick (mkWarmEnv (inl (OSError "[Errno 28] No space left on device"))
                              Fixture.model_ok))
            (initial_state Fixture.disk_voice))
  = inl (OSError "[Errno 28] No space left on device")
  ∧ result (main Fixture.voice
              (mkWarmEnv (inl (OSError "[Errno 28] No space left on device"))
                 Fixture.model_ok)
              [Fixture.env Fixture.request Fixture.model_ok]
              (initial_state Fixture.disk_voice))
    = inl (OSError "[Errno 28] No space left on device").
Proof.
  split; [reflexivity|].
  rewrite (proj2 (warm_up_tempfile_failure_escapes Fixture.voice
                    (mkWarmEnv (inl (OSError "[Errno 28] No space left on device"))
                       Fixture.model_ok)
                    [Fixture.env Fixture.request Fixture.model_ok]
                    (initial_state Fixture.disk_voice)
                    (OSError "[Errno 28] No space left on device") eq_refl)).
  reflexivity.
Defined.

(** The warm-up keeps the file system well-formed, whatever name is
    picked for its temporary file and whatever the model does. *)
Lemma warm_up_models_wf dv w st :
  fs_wf (disk st) → fs_wf (disk (final (warm_up_models dv w st))).
Proof.
  destruct w as [pick io]. destruct st as [f m]. cbn [disk]. intros Hwf. munfold.
  repeat first
    [ match goal with
      | |- context [process_text ?a ?b ?c ?d ?v (mkState ?g ?mm)] =>
          let Hg := fresh "Hg" in
          assert (fs_wf g) as Hg
            by (apply fs_wf_insert_file;
                [assumption | by eapply fresh_not_root | assumption
                | apply is_dir_false; [by eapply fresh_not_root|];
                  by erewrite fresh_lookup]);
          pose proof (process_text_wf a b c d v (mkState g mm) Hg);
          destruct (process_text a b c d v (mkState g mm)) as [evs [f' m'] r];
          cbn [disk final] in *
      end
    | mcase; munfold ];
  try assumption.
  all: try (match goal with H : file_content _ _ = Some _ |- _ =>
              apply fs_wf_delete_file in H; [assumption|] end).
  all: try assumption.
  all: apply fs_wf_insert_file;
       [assumption | by eapply fresh_not_root | assumption
       | apply is_dir_false; [by eapply fresh_not_root|]; by erewrite fresh_lookup].
Qed.

(** Started on a well-formed file system, the warm-up and any number of
    iterations of the loop leave a well-formed file system. *)
Lemma main_keeps_fs_wf (dv : path) (w : WarmEnv) (envs : list Env) (f : FS) :
  fs_wf f →
  fs_wf (disk (final (warm_up_models dv w (initial_state f))))
  ∧ (∀ st, fs_wf (disk st) → fs_wf (disk (final (run dv envs st))))
  ∧ fs_wf (disk (final (main dv w envs (initial_state f)))).
Proof.
  intros Hwf.
  pose proof (warm_up_models_wf dv w (initial_state f) Hwf) as Hwarm.
  split; [exact Hwarm|]. split; [intros st; apply run_wf|].
  unfold main, init_tail, bind at 1 2. cbn [send_multipart emit].
  destruct (warm_up_models dv w (initial_state f)) as [evs st1 [ex|[]]];
    cbn [disk final] in *; [exact Hwarm|].
  pose proof (run_wf dv envs st1 Hwarm) as Hrun.
  by destruct (run dv envs st1).
Qed.


(** ** Text on the wire: decoding undoes encoding *)

Lemma to_N_byte_of_N (n : N) : (n < 256)%N → Byte.to_N (byte_of_N n) = n.
Proof.
  intros Hn. unfold byte_of_N. destruct (Byte.of_N n) as [b|] eqn:E.
  - by apply Byte.to_of_N.
  - apply Byte.of_N_None_iff in E. lia.
Qed.

Lemma byte_of_N_to_N (b : byte) : byte_of_N (Byte.to_N b) = b.
Proof. unfold byte_of_N. by rewrite Byte.of_to_N. Qed.

Lemma utf8_decode_1 (b0 : byte) (r : bytes) :
  (Byte.to_N b0 < 128)%N →
  utf8_decode (b0 :: r) = cons (Byte.to_N b0) <$> utf8_decode r.
Proof.
  intros H. cbn [utf8_decode]. by rewrite (proj2 (N.ltb_lt _ _) H).
Qed.

Lemma is_cont_spec (b : byte) :
  is_cont b = true ↔ (128 ≤ Byte.to_N b ∧ Byte.to_N b ≤ 191)%N.
Proof.
  unfold is_cont. rewrite andb_true_iff, !N.leb_le. tauto.
Qed.

(** Arithmetic on code points: division and remainder by the powers of 64. *)
Ltac narith := zify; Z.to_euclidean_division_equations; lia.

(** Decides the comparisons that block one step of the decoder. *)
Ltac ncompare :=
  repeat match goal with
         | |- context [(?a <? ?b)%N] => destruct (N.ltb_spec a b); try narith
         | |- context [(?a <=? ?b)%N] => destruct (N.leb_spec a b); try narith
         end;
  cbn [andb orb negb].

Lemma utf8_decode_2 (b0 b1 : byte) (r : bytes) :
  (194 ≤ Byte.to_N b0 ∧ Byte.to_N b0 ≤ 223)%N → is_cont b1 = true →
  utf8_decode (b0 :: b1 :: r)
  = cons ((Byte.to_N b0 - 192) * 64 + cont_bits b1)%N <$> utf8_decode r.
Proof.
  intros H0 H1. cbn [utf8_decode]. rewrite H1. ncompare. reflexivity.
Qed.

Lemma utf8_decode_3 (b0 b1 b2 : byte) (r : bytes) :
  let cp := ((Byte.to_N b0 - 224) * 4096 + cont_bits b1 * 64 + cont_bits b2)%N in
  (224 ≤ Byte.to_N b0 ∧ Byte.to_N b0 ≤ 239)%N →
  is_cont b1 = true → is_cont b2 = true →
  (2048 ≤ cp)%N → (cp < 55296 ∨ 57343 < cp)%N →
  utf8_decode (b0 :: b1 :: b2 :: r) = cons cp <$> utf8_decode r.
Proof.
  intros cp H0 H1 H2 Hlow Hsur. cbn [utf8_decode]. rewrite H1, H2. fold cp.
  ncompare; reflexivity.
Qed.

Lemma utf8_decode_4 (b0 b1 b2 b3 : byte) (r : bytes) :
  let cp := ((Byte.to_N b0 - 240) * 262144 + cont_bits b1 * 4096
             + cont_bits b2 * 64 + cont_bits b3)%N in
  (240 ≤ Byte.to_N b0 ∧ Byte.to_N b0 ≤ 244)%N →
  is_cont b1 = true → is_cont b2 = true → is_cont b3 = true →
  (65536 ≤ cp ∧ cp ≤ 1114111)%N →
  utf8_decode (b0 :: b1 :: b2 :: b3 :: r) = cons cp <$> utf8_decode r.
Proof.
  intros cp H0 H1 H2 H3 Hcp. cbn [utf8_decode]. rewrite H1, H2, H3. fold cp.
  ncompare; reflexivity.
Qed.

Lemma is_scalar_spec (c : N) :
  is_scalar c = true ↔ (c < 55296 ∨ (57343 < c ∧ c < 1114112))%N.
Proof.
  unfold is_scalar. rewrite orb_true_iff, andb_true_iff, !N.ltb_lt. tauto.
Qed.

Lemma is_cont_byte_of_N (n : N) : (n < 64)%N → is_cont (byte_of_N (128 + n)) = true.
Proof.
  intros Hn. apply is_cont_spec. rewrite to_N_byte_of_N by lia. lia.
Qed.

Lemma cont_bits_byte_of_N (n : N) : (n < 64)%N → cont_bits (byte_of_N (128 + n)) = n.
Proof.
  intros Hn. unfold cont_bits. rewrite to_N_byte_of_N by lia. lia.
Qed.

(** One character: the decoder reads back what the encoder wrote. *)
Lemma utf8_decode_encode_char (c : N) (r : bytes) :
  is_scalar c = true →
  utf8_decode (utf8_encode_char c ++ r) = cons c <$> utf8_decode r.
Proof.
  intros Hc. apply is_scalar_spec in Hc. unfold utf8_encode_char.
  destruct (N.ltb_spec c 128); [|destruct (N.ltb_spec c 2048); [|destruct (N.ltb_spec c 65536)]].
  - cbn [app]. rewrite utf8_decode_1; rewrite to_N_byte_of_N by lia; [done | lia].
  - cbn [app]. rewrite utf8_decode_2.
    + rewrite to_N_byte_of_N by narith. rewrite cont_bits_byte_of_N by narith.
      do 2 f_equal. narith.
    + rewrite to_N_byte_of_N by narith. narith.
    + apply is_cont_byte_of_N. narith.
  - cbn [app]. rewrite utf8_decode_3.
    + rewrite to_N_byte_of_N by narith. rewrite !cont_bits_byte_of_N by narith.
      do 2 f_equal. narith.
    + rewrite to_N_byte_of_N by narith. narith.
    + apply is_cont_byte_of_N. narith.
    + apply is_cont_byte_of_N. narith.
    + rewrite to_N_byte_of_N by narith. rewrite !cont_bits_byte_of_N by narith. narith.
    + rewrite to_N_byte_of_N by narith. rewrite !cont_bits_byte_of_N by narith. narith.
  - cbn [app]. rewrite utf8_decode_4.
    + rewrite to_N_byte_of_N by narith. rewrite !cont_bits_byte_of_N by narith.
      do 2 f_equal. narith.
    + rewrite to_N_byte_of_N by narith. narith.
    + apply is_cont_byte_of_N. narith.
    + apply is_cont_byte_of_N. narith.
    + apply is_cont_byte_of_N. narith.
    + rewrite to_N_byte_of_N by narith. rewrite !cont_bits_byte_of_N by narith. narith.
Qed.

Lemma utf8_decode_encode (text : str) (bs : bytes) :
  utf8_encode text = Some bs → utf8_decode bs = Some text.
Proof.
  unfold utf8_encode. destruct (forallb is_scalar text) eqn:Hall; [|done].
  intros [= <-]. induction text as [|c text IH]; [reflexivity|].
  cbn [forallb] in Hall. apply andb_true_iff in Hall as [Hc Hall].
  cbn [flat_map]. rewrite utf8_decode_encode_char by done. by rewrite (IH Hall).
Qed.

(** One step of the decoder, read backwards: what a successful decoding
    says about the first character and the bytes it came from. *)
Lemma utf8_decode_cons_inv (b0 : byte) (r0 : bytes) (text : str) :
  utf8_decode (b0 :: r0) = Some text →
  ∃ c rest text',
    text = c :: text' ∧ is_scalar c = true
    ∧ b0 :: r0 = utf8_encode_char c ++ rest
    ∧ utf8_decode rest = Some text'
    ∧ (length rest < length (b0 :: r0))%nat.
Proof.
  cbn [utf8_decode]. set (n0 := Byte.to_N b0).
  assert (byte_of_N n0 = b0) as Hb0 by apply byte_of_N_to_N.
  pose proof (Byte.to_N_bounded b0) as Hbound. fold n0 in Hbound.
  destruct (N.ltb_spec n0 128) as [Hlt|Hge].
  { intros (text' & Hdec & ->)%fmap_Some. exists n0, r0, text'.
    split; [done|]. split; [apply is_scalar_spec; lia|].
    split; [|split; [done | cbn; lia]].
    unfold utf8_encode_char. rewrite (proj2 (N.ltb_lt _ _) Hlt). by rewrite Hb0. }
  destruct ((194 <=? n0) && (n0 <=? 223))%N eqn:H2.
  { apply andb_true_iff in H2 as [Hlo%N.leb_le Hhi%N.leb_le].
    destruct r0 as [|b1 r1]; [done|]. destruct (is_cont b1) eqn:Hc1; [|done].
    intros (text' & Hdec & ->)%fmap_Some.
    pose proof (proj1 (is_cont_spec b1) Hc1) as Hr1. unfold cont_bits.
    set (n1 := Byte.to_N b1) in *.
    assert (byte_of_N n1 = b1) as Hb1 by apply byte_of_N_to_N.
    exists ((n0 - 192) * 64 + (n1 - 128))%N, r1, text'.
    split; [done|]. split; [apply is_scalar_spec; lia|].
    split; [|split; [done | cbn; lia]].
    unfold utf8_encode_char.
    rewrite (proj2 (N.ltb_ge _ _)) by lia. rewrite (proj2 (N.ltb_lt _ _)) by lia.
    replace (192 + ((n0 - 192) * 64 + (n1 - 128)) / 64)%N with n0 by narith.
    replace (128 + ((n0 - 192) * 64 + (n1 - 128)) mod 64)%N with n1 by narith.
    by rewrite Hb0, Hb1. }
  destruct ((224 <=? n0) && (n0 <=? 239))%N eqn:H3.
  { apply andb_true_iff in H3 as [Hlo%N.leb_le Hhi%N.leb_le].
    destruct r0 as [|b1 [|b2 r2]]; [done..|].
    unfold cont_bits.
    pose proof (is_cont_spec b1) as Hs1. pose proof (is_cont_spec b2) as Hs2.
    set (n1 := Byte.to_N b1) in *. set (n2 := Byte.to_N b2) in *.
    assert (byte_of_N n1 = b1) as Hb1 by apply byte_of_N_to_N.
    assert (byte_of_N n2 = b2) as Hb2 by apply byte_of_N_to_N.
    set (cp := ((n0 - 224) * 4096 + (n1 - 128) * 64 + (n2 - 128))%N).
    destruct (is_cont b1); [|done]. destruct (is_cont b2); [|done].
    cbn [andb]. destruct (N.leb_spec 2048 cp) as [Hcp|]; [|done]. cbn [andb].
    destruct ((55296 <=? cp) && (cp <=? 57343))%N eqn:Hsur; [done|]. cbn [negb].
    intros (text' & Hdec & ->)%fmap_Some.
    apply andb_false_iff in Hsur. rewrite !N.leb_gt in Hsur.
    pose proof (proj1 Hs1 eq_refl). pose proof (proj1 Hs2 eq_refl).
    exists cp, r2, text'.
    split; [done|]. split; [apply is_scalar_spec; unfold cp in *; lia|].
    split; [|split; [done | cbn; lia]].
    unfold utf8_encode_char.
    rewrite (proj2 (N.ltb_ge _ _)) by lia. rewrite (proj2 (N.ltb_ge _ _)) by lia.
    rewrite (proj2 (N.ltb_lt _ _)) by (unfold cp; lia).
    replace (224 + cp / 4096)%N with n0 by (unfold cp; narith).
    replace (128 + (cp / 64) mod 64)%N with n1 by (unfold cp; narith).
    replace (128 + cp mod 64)%N with n2 by (unfold cp; narith).
    by rewrite Hb0, Hb1, Hb2. }
  destruct ((240 <=? n0) && (n0 <=? 244))%N eqn:H4; [|done].
  apply andb_true_iff in H4 as [Hlo%N.leb_le Hhi%N.leb_le].
  destruct r0 as [|b1 [|b2 [|b3 r3]]]; [done..|].
  unfold cont_bits.
  pose proof (is_cont_spec b1) as Hs1. pose proof (is_cont_spec b2) as Hs2.
  pose proof (is_cont_spec b3) as Hs3.
  set (n1 := Byte.to_N b1) in *. set (n2 := Byte.to_N b2) in *.
  set (n3 := Byte.to_N b3) in *.
  assert (byte_of_N n1 = b1) as Hb1 by apply byte_of_N_to_N.
  assert (byte_of_N n2 = b2) as Hb2 by apply byte_of_N_to_N.
  assert (byte_of_N n3 = b3) as Hb3 by apply byte_of_N_to_N.
  set (cp := ((n0 - 240) * 262144 + (n1 - 128) * 4096 + (n2 - 128) * 64 + (n3 - 128))%N).
  destruct (is_cont b1); [|done]. destruct (is_cont b2); [|done].
  destruct (is_cont b3); [|done]. cbn [andb].
  destruct (N.leb_spec 65536 cp) as [Hcp|]; [|done]. cbn [andb].
  destruct (N.leb_spec cp 1114111) as [Hmax|]; [|done].
  intros (text' & Hdec & ->)%fmap_Some.
  pose proof (proj1 Hs1 eq_refl). pose proof (proj1 Hs2 eq_refl).
  pose proof (proj1 Hs3 eq_refl).
  exists cp, r3, text'.
  split; [done|]. split; [apply is_scalar_spec; lia|].
  split; [|split; [done | cbn; lia]].
  unfold utf8_encode_char.
  rewrite (proj2 (N.ltb_ge _ _)) by lia. rewrite (proj2 (N.ltb_ge _ _)) by lia.
  rewrite (proj2 (N.ltb_ge _ _)) by lia.
  replace (240 + cp / 262144)%N with n0 by (unfold cp; narith).
  replace (128 + (cp / 4096) mod 64)%N with n1 by (unfold cp; narith).
  replace (128 + (cp / 64) mod 64)%N with n2 by (unfold cp; narith).
  replace (128 + cp mod 64)%N with n3 by (unfold cp; narith).
  by rewrite Hb0, Hb1, Hb2, Hb3.
Qed.

Lemma utf8_encode_decode (bs : bytes) (text : str) :
  utf8_decode bs = Some text → utf8_encode text = Some bs.
Proof.
  remember (length bs) as n eqn:Hn. revert bs text Hn.
  induction n as [n IH] using lt_wf_ind. intros bs text Hn Hdec.
  destruct bs as [|b0 r0].
  { cbn in Hdec. by injection Hdec as <-. }
  destruct (utf8_decode_cons_inv b0 r0 text Hdec)
    as (c & rest & text' & -> & Hc & Hbs & Hrest & Hlen).
  rewrite Hbs. specialize (IH (length rest) ltac:(lia) rest text' eq_refl Hrest).
  unfold utf8_encode in *. cbn [forallb flat_map]. rewrite Hc. cbn [andb].
  destruct (forallb is_scalar text'); [|done]. by injection IH as ->.
Qed.

(** X11: the decoding of the payload and the encoding a client (or
    [__init__], for the service name) applies are inverse to each other:
    a byte string decodes to a text exactly when it is the UTF-8 encoding
    of that text.  So decoding accepts nothing but encodings of sequences
    of Unicode scalar values, and two different payloads never decode to
    the same text. *)
Theorem utf8_round_trip (bs : bytes) (text : str) :
  utf8_decode bs = Some text ↔ utf8_encode text = Some bs.
Proof.
  split.
  - remember (length bs) as n eqn:Hn. revert bs text Hn.
    induction n as [n IH] using lt_wf_ind. intros bs text Hn Hdec.
    destruct bs as [|b0 r0].
    { cbn in Hdec. by injection Hdec as <-. }
    destruct (utf8_decode_cons_inv b0 r0 text Hdec)
      as (c & rest & text' & -> & Hc & Hbs & Hrest & Hlen).
    rewrite Hbs. specialize (IH (length rest) ltac:(lia) rest text' eq_refl Hrest).
    unfold utf8_encode in *. cbn [forallb flat_map]. rewrite Hc. cbn [andb].
    destruct (forallb is_scalar text'); [|done]. by injection IH as ->.
  - unfold utf8_encode. destruct (forallb is_scalar text) eqn:Hall; [|done].
    intros [= <-]. induction text as [|c text IH]; [reflexivity|].
    cbn [forallb] in Hall. apply andb_true_iff in Hall as [Hc Hall].
    cbn [flat_map]. rewrite utf8_decode_encode_char by done. by rewrite (IH Hall).
Qed.

(** X12: a request whose payload frame is the UTF-8 encoding of a text
    reaches the model with exactly that text, once the directory has been
    made; a payload that is the encoding of no text never reaches the
    model: the iteration only logs the decoding error, replies with the
    empty payload, and leaves the directory behind. *)
Theorem encoded_text_reaches_model dv e st msg payload d :
  delivery e = inr msg → msg !! 3 = Some payload →
  tempdir_pick e = inr d →
  path_exists (disk st) d = false → is_dir (disk st) (dirname d) = true →
  (∀ text, utf8_encode text = Some payload →
           infer_calls (events (run_iteration dv e st))
           = [(dv, text, join d "response.wav")])
  ∧ ((∀ text, utf8_encode text ≠ Some payload) →
     run_iteration dv e st
     = mkOut [EPrint LogReady; EPrint (LogRequestError UnicodeDecodeError);
              ESend (take 3 msg ++ [[]])]
             (mkState (<[d := Dir]> (disk st)) (Some msg)) (inr tt)).
Proof.
  intros Hrecv Hpay Hpick Hfresh Hparent. split.
  - intros text Henc. apply utf8_decode_encode in Henc.
    by apply (run_iteration_infer_call dv e st msg payload d text).
  - intros Hnone. apply (run_iteration_decode_failure dv e st msg payload d); try done.
    destruct (utf8_decode payload) as [text|] eqn:Hdec; [|done].
    apply utf8_encode_decode in Hdec. by destruct (Hnone text).
Qed.

Lemma encoded_text_reaches_model_witness :
  delivery (Fixture.env Fixture.request Fixture.model_ok) = inr Fixture.request
  ∧ Fixture.request !! 3 = Some Fixture.ok
  ∧ tempdir_pick (Fixture.env Fixture.request Fixture.model_ok) = inr Fixture.tempdir
  ∧ path_exists Fixture.disk_voice Fixture.tempdir = false
  ∧ is_dir Fixture.disk_voice (dirname Fixture.tempdir) = true
  ∧ infer_calls (events Fixture.served)
    = [(Fixture.voice, [111%N; 107%N], Fixture.artifact)].
Proof.
  do 5 (split; [reflexivity|]).
  apply (proj1 (encoded_text_reaches_model Fixture.voice
                  (Fixture.env Fixture.request Fixture.model_ok)
                  (initial_state Fixture.disk_voice) Fixture.request Fixture.ok
                  Fixture.tempdir eq_refl eq_refl eq_refl eq_refl eq_refl)).
  reflexivity.
Defined.

(** ** The same request again *)

(** X16: requests do not interfere with one another.  On a well-formed
    file system, the same request served [n] times in a row by a model
    that writes [b] and returns, [mkdtemp] picking the same free name each
    time, gives [n] identical replies carrying [b] and leaves the file
    system exactly as it was before the first of them. *)
Theorem repeated_request_is_independent dv e st msg payload d text b n :
  fs_wf (disk st) →
  delivery e = inr msg → msg !! 3 = Some payload →
  tempdir_pick e = inr d →
  path_exists (disk st) d = false → is_dir (disk st) (dirname d) = true →
  utf8_decode payload = Some text →
  inference e = mkInfer (Some b) None →
  result (run dv (replicate n e) st) = inr tt
  ∧ sends (events (run dv (replicate n e) st)) = replicate n (take 3 msg ++ [b])
  ∧ disk (final (run dv (replicate n e) st)) = disk st.
Proof.
  intros Hwf Hrecv Hpay Hpick Hfresh Hparent Hdec Hio.
  revert st Hwf Hfresh Hparent. induction n as [|n IH]; intros st Hwf Hfresh Hparent.
  { repeat split. }
  cbn [replicate]. rewrite run_cons.
  destruct (run_iteration_success_releases dv e st msg payload d text b
              Hwf Hrecv Hpay Hpick Hfresh Hparent Hdec Hio) as (Hs & Hfin & Hres).
  destruct (run_iteration dv e st) as [evs st1 r]. cbn [result events final] in *.
  subst r st1.
  destruct (IH (mkState (disk st) (Some msg)) Hwf Hfresh Hparent) as (IHr & IHs & IHd).
  destruct (run dv (replicate n e) _) as [evs' st2 r']. cbn [result events final disk] in *.
  split; [exact IHr|]. split; [|exact IHd]. rewrite sends_app, Hs, IHs. reflexivity.
Qed.

Lemma repeated_request_is_independent_witness :
  fs_wf Fixture.disk_voice
  ∧ delivery (Fixture.env Fixture.request Fixture.model_ok) = inr Fixture.request
  ∧ Fixture.request !! 3 = Some Fixture.ok
  ∧ tempdir_pick (Fixture.env Fixture.request Fixture.model_ok) = inr Fixture.tempdir
  ∧ path_exists Fixture.disk_voice Fixture.tempdir = false
  ∧ is_dir Fixture.disk_voice (dirname Fixture.tempdir) = true
  ∧ utf8_decode Fixture.ok = Some [111%N; 107%N]
  ∧ inference (Fixture.env Fixture.request Fixture.model_ok) = mkInfer (Some Fixture.audio) None
  ∧ sends (events (run Fixture.voice
                     (replicate 3 (Fixture.env Fixture.request Fixture.model_ok))
                     (initial_state Fixture.disk_voice)))
    = replicate 3 (take 3 Fixture.request ++ [Fixture.audio]).
Proof.
  assert (fs_wf Fixture.disk_voice) as Hwf.
  { apply (bool_decide_unpack _). vm_compute. exact I. }
  split; [exact Hwf|]. do 7 (split; [reflexivity|]).
  exact (proj1 (proj2 (repeated_request_is_independent Fixture.voice
           (Fixture.env Fixture.request Fixture.model_ok)
           (initial_state Fixture.disk_voice) Fixture.request Fixture.ok
           Fixture.tempdir [111%N; 107%N] Fixture.audio 3 Hwf eq_refl eq_refl eq_refl
           eq_refl eq_refl eq_refl eq_refl))).
Defined.

(** ** The start of the process *)

Lemma server_events_app evs evs' :
  server_events (evs ++ evs') = server_events evs ++ server_events evs'.
Proof. apply omap_app. Qed.

Lemma server_events_map_SServer (evs : list Event) :
  server_events (map SServer evs) = evs.
Proof.
  unfold server_events. induction evs as [|ev evs IH]; [done|]. cbn. by f_equal.
Qed.

Lemma model_loads_app evs evs' :
  model_loads (evs ++ evs') = model_loads evs ++ model_loads evs'.
Proof. apply omap_app. Qed.

Lemma model_loads_map_SServer (evs : list Event) : model_loads (map SServer evs) = [].
Proof. unfold model_loads. induction evs as [|ev evs IH]; [done|]. by cbn. Qed.

(** The loop over the required files stops at the first one that is
    missing. *)
Lemma check_required_files_find (f : FS) (model_dir : path) (files : list string) :
  check_required_files f model_dir files
  = match list_find (λ file, path_exists f (join model_dir file) = false) files with
    | Some (i, file) =>
        (map (λ x, SPrint (LogRequiredFound (join model_dir x))) (take i files)
           ++ [SPrint (LogRequiredMissing (join model_dir file))],
         Some (FileNotFoundError [file]))
    | None =>
        (map (λ x, SPrint (LogRequiredFound (join model_dir x))) files, None)
    end.
Proof.
  induction files as [|file files IH]; [reflexivity|].
  cbn [check_required_files list_find]. rewrite IH.
  destruct (path_exists f (join model_dir file)) eqn:Hex.
  - rewrite decide_False by done. cbn [negb].
    destruct (list_find _ files) as [[i x]|]; reflexivity.
  - rewrite decide_True by done. reflexivity.
Qed.

Lemma connections_app evs evs' :
  connections (evs ++ evs') = connections evs ++ connections evs'.
Proof. apply omap_app. Qed.

Lemma connections_map_SServer (evs : list Event) : connections (map SServer evs) = [].
Proof. unfold connections. induction evs as [|ev evs IH]; [done|]. by cbn. Qed.

Lemma check_required_files_no_connect (f : FS) (model_dir : path) (files : list string) :
  connections (check_required_files f model_dir files).1 = [].
Proof.
  induction files as [|file files IH]; [done|]. cbn [check_required_files].
  destruct (path_exists f (join model_dir file)); cbn [negb]; [|done].
  by destruct (check_required_files f model_dir files).
Qed.

Lemma check_required_files_quiet (f : FS) (model_dir : path) (files : list string) :
  server_events (check_required_files f model_dir files).1 = []
  ∧ model_loads (check_required_files f model_dir files).1 = [].
Proof.
  induction files as [|file files [IH1 IH2]]; [done|]. cbn [check_required_files].
  destruct (path_exists f (join model_dir file)); cbn [negb]; [|done].
  by destruct (check_required_files f model_dir files).
Qed.

(** X13: [__init__] looks for the four model files in the order of
    [required_files] and raises [FileNotFoundError] for the first one that
    is missing; in that case the model is not constructed, the socket is
    not connected and nothing is sent, not even the registration.  The
    model is constructed only when all four exist, and then with the
    configuration file [model_dir/config.yaml], which is one of them; the
    socket is then connected exactly once when the constructor returns, to
    the address from [ZMQ_BACKEND_ROUTER_URL] or the default one, and not
    at all when the constructor raises. *)
Theorem init_checks_required_files (current_dir : path) (environ : Environ)
    (o : StartEnv) (f : FS) :
  let model_dir :=
    environ_get (env_INDEX_TTS_MODEL_DIR environ) (join current_dir "checkpoints") in
  let '(evs, st, r) := init current_dir environ o f in
  match list_find (λ file, path_exists f (join model_dir file) = false) required_files with
  | Some (_, file) =>
      r = inl (FileNotFoundError [file]) ∧ st = initial_state f
      ∧ server_events evs = [] ∧ model_loads evs = []
      ∧ connections evs = []
  | None =>
      Forall (λ file, path_exists f (join model_dir file) = true) required_files
      ∧ path_exists f (join model_dir "config.yaml") = true
      ∧ (∃ device,
          model_loads evs = [(join model_dir "config.yaml", model_dir, device)]
          ∧ device = match env_DEVICE environ with
                     | Some d => d
                     | None => if cuda_is_available o then "cuda:0" else "cpu"
                     end)
      ∧ connections evs
        = match model_failure o with
          | Some _ => []
          | None => [match env_ZMQ_BACKEND_ROUTER_URL environ with
                     | Some url => url
                     | None => "tcp://localhost:5560"
                     end]
          end
  end.
Proof.
  cbv zeta. unfold init.
  set (model_dir := environ_get (env_INDEX_TTS_MODEL_DIR environ)
                      (join current_dir "checkpoints")).
  pose proof (check_required_files_quiet f model_dir required_files) as [Hq1 Hq2].
  pose proof (check_required_files_no_connect f model_dir required_files) as Hq3.
  rewrite check_required_files_find in *.
  destruct (list_find _ required_files) as [[i file]|] eqn:Hfind.
  - cbn [fst] in Hq1, Hq2, Hq3.
    rewrite server_events_app, model_loads_app, connections_app, Hq1, Hq2, Hq3. done.
  - cbn [fst] in Hq1, Hq2, Hq3.
    assert (Forall (λ file, path_exists f (join model_dir file) = true) required_files)
      as Hall.
    { apply list_find_None in Hfind. eapply Forall_impl; [exact Hfind|].
      cbn. intros x Hx. by destruct (path_exists f (join model_dir x)). }
    assert (path_exists f (join model_dir "config.yaml") = true) as Hcfg.
    { rewrite Forall_forall in Hall. apply Hall. unfold required_files. set_solver. }
    destruct (model_failure o) as [e|].
    + split; [exact Hall|]. split; [exact Hcfg|]. split.
      * eexists. split; [|reflexivity].
        rewrite !model_loads_app, Hq2. by destruct (env_DEVICE environ).
      * rewrite !connections_app, Hq3. reflexivity.
    + split; [exact Hall|]. split; [exact Hcfg|]. split.
      * eexists. split; [|reflexivity].
        rewrite !model_loads_app, Hq2, model_loads_map_SServer.
        by destruct (env_DEVICE environ).
      * rewrite !connections_app, Hq3, connections_map_SServer.
        by destruct (env_ZMQ_BACKEND_ROUTER_URL environ).
Qed.

Lemma check_required_files_all (f : FS) (model_dir : path) (files : list string) :
  Forall (λ file, path_exists f (join model_dir file) = true) files →
  (check_required_files f model_dir files).2 = None.
Proof.
  induction 1 as [|file files Hfile _ IH]; [reflexivity|].
  cbn [check_required_files]. rewrite Hfile. cbn [negb].
  by destruct (check_required_files f model_dir files).
Qed.

(** X14: when the four model files are there but the constructor of the
    model raises, [__init__] prints and raises the same exception again:
    the process ends with it, the socket is never connected, nothing is
    sent (the worker never registers) and no request is received. *)
Theorem process_model_failure (current_dir : path) (environ : Environ)
    (o : StartEnv) (envs : list Env) (f : FS) (e : exn) :
  Forall (λ file,
            path_exists f
              (join (environ_get (env_INDEX_TTS_MODEL_DIR environ)
                       (join current_dir "checkpoints")) file) = true)
         required_files →
  model_failure o = Some e →
  let '(evs, st, r) := process current_dir environ o envs f in
  r = inl e ∧ st = initial_state f ∧ server_events evs = []
  ∧ last evs = Some (SPrint (LogModelInitFailed e))
  ∧ connections evs = [].
Proof.
  intros Hall Hfail. unfold process, init. rewrite Hfail.
  pose proof (check_required_files_all f _ _ Hall) as Hnone.
  pose proof (check_required_files_quiet f
                (environ_get (env_INDEX_TTS_MODEL_DIR environ)
                   (join current_dir "checkpoints")) required_files) as [Hq _].
  pose proof (check_required_files_no_connect f
                (environ_get (env_INDEX_TTS_MODEL_DIR environ)
                   (join current_dir "checkpoints")) required_files) as Hc.
  destruct (check_required_files f _ required_files) as [evs1 r1].
  cbn [fst snd] in Hnone, Hq, Hc. subst r1.
  split; [reflexivity|]. split; [reflexivity|]. split; [|split].
  - rewrite !server_events_app, Hq. reflexivity.
  - rewrite !app_assoc. rewrite last_app. reflexivity.
  - rewrite !connections_app, Hc. reflexivity.
Qed.

Lemma process_model_failure_witness :
  Forall (λ file, path_exists StartFixture.disk_checkpoints
                    (join (environ_get None (join ["app"] "checkpoints")) file) = true)
         required_files
  ∧ model_failure StartFixture.start_model_fails
    = Some (ModelError "checkpoint is corrupt")
  ∧ (process ["app"] StartFixture.environ_unset StartFixture.start_model_fails
       [Fixture.env Fixture.request Fixture.model_ok] StartFixture.disk_checkpoints).2
    = inl (ModelError "checkpoint is corrupt").
Proof.
  assert (Forall (λ file, path_exists StartFixture.disk_checkpoints
                    (join (environ_get None (join ["app"] "checkpoints")) file) = true)
            required_files) as Hall.
  { repeat constructor. }
  split; [exact Hall|]. split; [reflexivity|].
  pose proof (process_model_failure ["app"] StartFixture.environ_unset
                StartFixture.start_model_fails
                [Fixture.env Fixture.request Fixture.model_ok]
                StartFixture.disk_checkpoints
                (ModelError "checkpoint is corrupt") Hall eq_refl) as H.
  destruct (process _ _ _ _ _) as [[evs st] r]. exact (proj1 H).
Defined.

Lemma main_unfold dv w envs st :
  main dv w envs st
  = match init_tail dv w st with
    | mkOut evs st1 (inl ex) => mkOut evs st1 (inl ex)
    | mkOut evs st1 (inr _) =>
        match run dv envs st1 with
        | mkOut evs' st2 r => mkOut (evs ++ evs') st2 r
        end
    end.
Proof. reflexivity. Qed.

(** X15: when the four model files are there and the model is
    constructed, the process is the server started on the default voice
    taken from [INDEX_TTS_DEFAULT_VOICE] (or [coXTTS.wav] beside the
    script): its server events, final state and result are those of the
    registration, the warm-up and the loop, whether or not that voice file
    exists; the first thing sent is the registration, one frame holding
    the service name; and the model has been constructed exactly once. *)
Theorem process_is_main (current_dir : path) (environ : Environ)
    (o : StartEnv) (envs : list Env) (f : FS) :
  Forall (λ file,
            path_exists f
              (join (environ_get (env_INDEX_TTS_MODEL_DIR environ)
                       (join current_dir "checkpoints")) file) = true)
         required_files →
  model_failure o = None →
  let dv := match env_INDEX_TTS_DEFAULT_VOICE environ with
            | Some p => p
            | None => join current_dir "coXTTS.wav"
            end in
  let served := main dv (warm o) envs (initial_state f) in
  let '(evs, st, r) := process current_dir environ o envs f in
  server_events evs = events served ∧ st = final served ∧ r = result served
  ∧ (∃ rest, server_events evs
             = ESend [String.list_byte_of_string service_name] :: rest)
  ∧ length (model_loads evs) = 1.
Proof.
  intros Hall Hload. cbv zeta. unfold process, init. rewrite Hload.
  pose proof (check_required_files_all f _ _ Hall) as Hnone.
  pose proof (check_required_files_quiet f
                (environ_get (env_INDEX_TTS_MODEL_DIR environ)
                   (join current_dir "checkpoints")) required_files) as [Hq Hm].
  destruct (check_required_files f _ required_files) as [evs1 r1].
  cbn [fst snd] in Hnone, Hq, Hm. subst r1.
  replace (environ_get (env_INDEX_TTS_DEFAULT_VOICE environ)
             (join current_dir "coXTTS.wav"))
    with (match env_INDEX_TTS_DEFAULT_VOICE environ with
          | Some p => p
          | None => join current_dir "coXTTS.wav"
          end) by (by destruct (env_INDEX_TTS_DEFAULT_VOICE environ)).
  set (dv := match env_INDEX_TTS_DEFAULT_VOICE environ with
             | Some p => p
             | None => join current_dir "coXTTS.wav"
             end).
  rewrite main_unfold.
  assert (∃ rest, events (init_tail dv (warm o) (initial_state f))
                  = ESend [String.list_byte_of_string service_name] :: rest) as [rest Hreg].
  { unfold init_tail, bind. cbn [send_multipart emit].
    destruct (warm_up_models dv (warm o) (initial_state f)) as [evs' st' [?|?]];
      cbn [events]; eauto. }
  destruct (init_tail dv (warm o) (initial_state f)) as [evs2 st2 [ex|[]]];
    cbn [events final result srv_default_voice] in *.
  - rewrite !server_events_app, !model_loads_app, Hq, Hm,
      server_events_map_SServer, model_loads_map_SServer.
    split; [reflexivity|]. split; [reflexivity|]. split; [reflexivity|].
    split; [|reflexivity]. rewrite Hreg. eexists. reflexivity.
  - destruct (run dv envs st2) as [evs3 st3 r3]. cbn [events final result].
    rewrite !server_events_app, !model_loads_app, Hq, Hm,
      !server_events_map_SServer, !model_loads_map_SServer.
    split; [reflexivity|]. split; [reflexivity|]. split; [reflexivity|].
    split; [|reflexivity]. rewrite Hreg. eexists. reflexivity.
Qed.

Lemma process_is_main_witness :
  Forall (λ file, path_exists StartFixture.disk_checkpoints
                    (join (environ_get None (join ["app"] "checkpoints")) file) = true)
         required_files
  ∧ model_failure StartFixture.start_ok = None
  ∧ (process ["app"] StartFixture.environ_unset StartFixture.start_ok
       [Fixture.env Fixture.request Fixture.model_ok] StartFixture.disk_checkpoints).2
    = result (main ["app"; "coXTTS.wav"] (Fixture.warm_env Fixture.model_ok)
                [Fixture.env Fixture.request Fixture.model_ok]
                (initial_state StartFixture.disk_checkpoints)).
Proof.
  assert (Forall (λ file, path_exists StartFixture.disk_checkpoints
                    (join (environ_get None (join ["app"] "checkpoints")) file) = true)
            required_files) as Hall.
  { repeat constructor. }
  split; [exact Hall|]. split; [reflexivity|].
  pose proof (process_is_main ["app"] StartFixture.environ_unset StartFixture.start_ok
                [Fixture.env Fixture.request Fixture.model_ok]
                StartFixture.disk_checkpoints Hall eq_refl) as H.
  cbv zeta in H. destruct (process _ _ _ _ _) as [[evs st] r].
  exact (proj1 (proj2 (proj2 H))).
Defined.
